(** * picam: motion detection and the recording loop

    A shallow embedding of [src/picam/picam.py]:

    - [DetectMotion.analyze], the thresholding of one motion-vector frame
      with its timeout hysteresis;
    - [concat_vids], [convert_video], [write_video] and [gen_img_name],
      over a file system kept as a finite map from paths to bytes;
    - [main], the control loop, as a step function over its suspension
      points ([wait_recording], [capture], [subprocess.run]).

    Times ([time.time()]) are exact rationals, and so are their
    differences; the capture pipeline, the clock, the transcoder and other
    processes are the environment, given to the model as one [outcome]
    per blocking call. File operations fail only by a missing file. *)

From Stdlib Require Import ZArith QArith Qabs Lqa Lia Bool List Ascii String.
From Stdlib.Strings Require Import Byte.
From stdpp Require Import gmap strings list.

Local Open Scope Z_scope.

(** ** DetectMotion *)

Module Motion.

(** One element of picamera's motion array: signed displacements [x], [y]
    and the sum of absolute differences. *)
Record motion_vector : Type := MotionVector
  { mv_x : Z; mv_y : Z; mv_sad : Z }.

(** A motion frame is a two-dimensional array of vectors (rows of blocks). *)
Definition frame : Type := list (list motion_vector).

(** [ndarray.clip(lo, hi)]: minimum(hi, maximum(lo, v)). *)
Definition clip (lo hi v : Z) : Z := Z.min hi (Z.max lo v).

(** [astype(np.uint8)] on an integral value: reduction modulo 2^8. *)
Definition astype_uint8 (v : Z) : Z := v mod 256.

(** Line 46-49 for one vector. The squares and their sum are exact in
    double precision, [np.sqrt] is correctly rounded, and the final
    [astype(np.uint8)] truncates; truncation commutes with clipping at an
    integer bound, so the value is the clipped integer square root. *)
Definition magnitude (v : motion_vector) : Z :=
  astype_uint8 (clip 0 255 (Z.sqrt (mv_x v * mv_x v + mv_y v * mv_y v))).

Definition magnitudes (a : frame) : list (list Z) := map (map magnitude) a.

(** [(a > threshold).sum()] over the whole array. *)
Definition count_gt (a : list (list Z)) (threshold : Z) : Z :=
  Z.of_nat (length (List.filter (fun m => threshold <? m) (concat a))).

(** Strict [>] on rationals, as a boolean. *)
Definition Qgtb (a b : Q) : bool := negb (Qle_bool a b).

(** The attributes of a [DetectMotion] object. *)
Record DetectMotion : Type := mkDetectMotion
  { motion_magnitude : Z;
    motion_vector_count : Z;
    motion_detected : bool;
    latest_motion : Q;
    motion_timeout : Q }.

(** [__init__], lines 27-33. *)
Definition init (timeout : Q) (mag count : Z) : DetectMotion :=
  {| motion_magnitude := mag;
     motion_vector_count := count;
     motion_detected := false;
     latest_motion := 0%Q;
     motion_timeout := timeout |}.

(** The keyword defaults: [motion_timeout=5, motion_magnitude=30,
    motion_vector_count=20]. *)
Definition default : DetectMotion := init 5%Q 30 20.

Definition set_motion_detected (b : bool) (self : DetectMotion) : DetectMotion :=
  {| motion_magnitude := motion_magnitude self;
     motion_vector_count := motion_vector_count self;
     motion_detected := b;
     latest_motion := latest_motion self;
     motion_timeout := motion_timeout self |}.

Definition set_latest_motion (t : Q) (self : DetectMotion) : DetectMotion :=
  {| motion_magnitude := motion_magnitude self;
     motion_vector_count := motion_vector_count self;
     motion_detected := motion_detected self;
     latest_motion := t;
     motion_timeout := motion_timeout self |}.

(** The test of line 58: more than [motion_vector_count] vectors have a
    magnitude greater than [motion_magnitude]. *)
Definition triggers (self : DetectMotion) (a : frame) : bool :=
  motion_vector_count self <? count_gt (magnitudes a) (motion_magnitude self).

(** The test of line 62. The subtraction is exact here; line 62 subtracts
    doubles, whose rounded difference can differ from the exact one by a
    fraction 2^-53 of it. *)
Definition timed_out (self : DetectMotion) (ts : Q) : bool :=
  motion_detected self && Qgtb (ts - latest_motion self) (motion_timeout self).

(** [analyze], lines 45-64; [ts] is the reading of [time.time()] at line 51. *)
Definition analyze (self : DetectMotion) (a : frame) (ts : Q) : DetectMotion :=
  if triggers self a then
    set_motion_detected true (set_latest_motion ts self)
  else if timed_out self ts then
    set_motion_detected false self
  else self.

(** Frames analysed one after the other, in arrival order. *)
Definition analyze_all (self : DetectMotion) (fs : list (frame * Q)) : DetectMotion :=
  fold_left (fun s ft => analyze s (fst ft) (snd ft)) fs self.

(** *** Vocabulary of the specification, over traces of frames *)

(** Time of the last triggering frame of a trace, [t0] when there is none. *)
Fixpoint last_trigger (self : DetectMotion) (t0 : Q) (fs : list (frame * Q)) : Q :=
  match fs with
  | [] => t0
  | (a, ts) :: rest =>
      last_trigger self (if triggers self a then ts else t0) rest
  end.

(** Every frame that does not trigger arrives no later than
    [motion_timeout] after the last triggering frame before it. *)
Fixpoint in_window (self : DetectMotion) (t0 : Q) (fs : list (frame * Q)) : bool :=
  match fs with
  | [] => true
  | (a, ts) :: rest =>
      if triggers self a then in_window self ts rest
      else Qle_bool (ts - t0) (motion_timeout self) && in_window self t0 rest
  end.

(** The clock readings never go back: each is at least the one before. *)
Fixpoint clock_monotone (t0 : Q) (ts : list Q) : bool :=
  match ts with
  | [] => true
  | t :: rest => Qle_bool t0 t && clock_monotone t rest
  end.

End Motion.

(** ** Timestamps and names *)

Module Names.

Local Open Scope N_scope.

(** A reading of [datetime.datetime.now()]. *)
Record datetime : Type := mkDatetime
  { year : N; month : N; day : N; hour : N; minute : N; second : N }.

Definition digit_char (d : N) : ascii := ascii_of_N (48 + d).

Fixpoint decimal_aux (fuel : nat) (n : N) (acc : string) : string :=
  match fuel with
  | O => acc
  | S fuel' =>
      let acc' := String (digit_char (n mod 10)) acc in
      if n / 10 =? 0 then acc' else decimal_aux fuel' (n / 10) acc'
  end.

(** Decimal digits of [n], most significant first. The number of binary
    digits bounds the number of decimal ones. *)
Definition decimal (n : N) : string :=
  decimal_aux (S (N.to_nat (N.log2 n))) n EmptyString.

Fixpoint zeros (k : nat) : string :=
  match k with
  | O => EmptyString
  | S k' => String "0" (zeros k')
  end.

(** Zero padding to a minimum width, as [%m], [%d], ... and [{:03d}] do. *)
Definition zfill (width : nat) (n : N) : string :=
  let s := decimal n in zeros (width - String.length s) +:+ s.

(** ["{:%Y-%m-%d-%H%M%S}".format(d)], lines 106 and 131. [%Y] is taken
    as padded to four digits, as it is for the years from 1000 on. *)
Definition format_ts (d : datetime) : string :=
  zfill 4 (year d) +:+ "-" +:+ zfill 2 (month d) +:+ "-" +:+ zfill 2 (day d)
  +:+ "-" +:+ zfill 2 (hour d) +:+ zfill 2 (minute d) +:+ zfill 2 (second d).

(** ["{:%Y-%m-%d-%H%M%S}-{:03d}.jpg".format(now, counter)], line 106. *)
Definition img_name (now : datetime) (counter : nat) : string :=
  format_ts now +:+ "-" +:+ zfill 3 (N.of_nat counter) +:+ ".jpg".

(** One [next()] on the generator [gen_img_name], lines 104-106: the
    generator's local [counter] is its only state; it is set to 0 when the
    generator is created and never assigned otherwise. *)
Definition gen_img_name_next (counter : nat) (now : datetime) : nat * string :=
  let counter := S counter in (counter, img_name now counter).

Definition h264 (ts : string) : string := ts +:+ ".h264".
Definition mp4 (ts : string) : string := ts +:+ ".mp4".

End Names.

(** ** The world of [main] *)

Module Picam.

Import Motion Names.

(** Exceptions that reach [main]'s [try] statement. [OtherError] stands for
    whatever else a blocking call reports (a recording error, a full disk). *)
Inductive exn : Type :=
  | KeyboardInterrupt
  | FileNotFoundError (path : string)
  | UnboundLocalError (name : string)
  | OtherError (msg : string).

Definition is_KeyboardInterrupt (e : exn) : bool :=
  match e with KeyboardInterrupt => true | _ => false end.

(** A frame of encoded video; SPS headers mark where decoding can start. *)
Record video_frame : Type := mkVideoFrame
  { is_sps_header : bool; payload : list byte }.

(** [PiCameraCircularIO]: the frames the ring still holds, oldest first,
    and the position of the stream. *)
Record circular_io : Type := mkCircularIO
  { ring : list video_frame; position : nat }.

Definition ring_bytes (s : circular_io) : list byte :=
  concat (map payload (ring s)).

(** Byte offset ([frame.position]) of the first SPS header in the ring. *)
Fixpoint first_sps (offset : nat) (fs : list video_frame) : option nat :=
  match fs with
  | [] => None
  | f :: rest =>
      if is_sps_header f then Some offset
      else first_sps (offset + length (payload f)) rest
  end.

(** Where splitter port 1 records to. *)
Inductive target : Type :=
  | ToStream
  | ToFile (path : string).

Record world : Type := mkWorld
  { files : gmap string (list byte);   (* the working directory *)
    output : DetectMotion;             (* the [DetectMotion] of line 114 *)
    clock : Q;                         (* [time.time()] *)
    today : datetime;                  (* [datetime.datetime.now()] *)
    stream : circular_io;              (* the circular buffer of line 113 *)
    port1 : target;
    recording : list nat;              (* splitter ports being recorded *)
    img_counter : nat;                 (* [counter] of the generator [img_name] *)
    ts : option string;                (* the local [ts] of [main]; unbound at first *)
    stills : list string;              (* names passed to [camera.capture], in order *)
    procs : list (list string * Z) }.  (* commands run, with their exit codes *)

Definition set_files (v : gmap string (list byte)) (w : world) : world :=
  {| files := v; output := output w; clock := clock w; today := today w;
     stream := stream w; port1 := port1 w; recording := recording w;
     img_counter := img_counter w; ts := ts w; stills := stills w;
     procs := procs w |}.

Definition set_output (v : DetectMotion) (w : world) : world :=
  {| files := files w; output := v; clock := clock w; today := today w;
     stream := stream w; port1 := port1 w; recording := recording w;
     img_counter := img_counter w; ts := ts w; stills := stills w;
     procs := procs w |}.

Definition set_time (c : Q) (d : datetime) (w : world) : world :=
  {| files := files w; output := output w; clock := c; today := d;
     stream := stream w; port1 := port1 w; recording := recording w;
     img_counter := img_counter w; ts := ts w; stills := stills w;
     procs := procs w |}.

Definition set_stream (v : circular_io) (w : world) : world :=
  {| files := files w; output := output w; clock := clock w; today := today w;
     stream := v; port1 := port1 w; recording := recording w;
     img_counter := img_counter w; ts := ts w; stills := stills w;
     procs := procs w |}.

Definition set_port1 (v : target) (w : world) : world :=
  {| files := files w; output := output w; clock := clock w; today := today w;
     stream := stream w; port1 := v; recording := recording w;
     img_counter := img_counter w; ts := ts w; stills := stills w;
     procs := procs w |}.

Definition set_recording (v : list nat) (w : world) : world :=
  {| files := files w; output := output w; clock := clock w; today := today w;
     stream := stream w; port1 := port1 w; recording := v;
     img_counter := img_counter w; ts := ts w; stills := stills w;
     procs := procs w |}.

Definition set_img_counter (v : nat) (w : world) : world :=
  {| files := files w; output := output w; clock := clock w; today := today w;
     stream := stream w; port1 := port1 w; recording := recording w;
     img_counter := v; ts := ts w; stills := stills w; procs := procs w |}.

Definition set_ts (v : option string) (w : world) : world :=
  {| files := files w; output := output w; clock := clock w; today := today w;
     stream := stream w; port1 := port1 w; recording := recording w;
     img_counter := img_counter w; ts := v; stills := stills w;
     procs := procs w |}.

Definition set_stills (v : list string) (w : world) : world :=
  {| files := files w; output := output w; clock := clock w; today := today w;
     stream := stream w; port1 := port1 w; recording := recording w;
     img_counter := img_counter w; ts := ts w; stills := v; procs := procs w |}.

Definition set_procs (v : list (list string * Z)) (w : world) : world :=
  {| files := files w; output := output w; clock := clock w; today := today w;
     stream := stream w; port1 := port1 w; recording := recording w;
     img_counter := img_counter w; ts := ts w; stills := stills w; procs := v |}.

(** *** Computations that change the world and may raise *)

Inductive result (A : Type) : Type :=
  | Ok (a : A) (w : world)
  | Raise (e : exn) (w : world).
Arguments Ok {A} a w.
Arguments Raise {A} e w.

Definition M (A : Type) : Type := world -> result A.

Definition ret {A} (a : A) : M A := fun w => Ok a w.

Definition bind {A B} (c : M A) (k : A -> M B) : M B :=
  fun w => match c w with
           | Ok a w' => k a w'
           | Raise e w' => Raise e w'
           end.

Definition raise {A} (e : exn) : M A := fun w => Raise e w.
Definition get : M world := fun w => Ok w w.
Definition modify (f : world -> world) : M unit := fun w => Ok tt (f w).

Declare Scope picam_scope.
Delimit Scope picam_scope with picam.
Notation "x <- c ;; k" := (bind c (fun x => k))
  (at level 100, c at next level, right associativity) : picam_scope.
Notation "c ;; k" := (bind c (fun _ => k))
  (at level 100, right associativity) : picam_scope.
Local Open Scope picam_scope.

(** *** The environment *)

(** What happened while one blocking call was in progress: the clock
    readings when it returns, the motion frames analysed meanwhile (with
    the [time.time()] each [analyze] read), the video that port 1 encoded
    and the frames the ring dropped for it, the still image and the exit
    code (for [capture] and [subprocess.run]), the files other processes
    (the transcoder among them) wrote or removed, and the exception the
    call raises, if any. *)
Record outcome : Type := mkOutcome
  { o_clock : Q;
    o_today : datetime;
    o_motion : list (frame * Q);
    o_video : list video_frame;
    o_evicted : nat;
    o_jpeg : list byte;
    o_returncode : Z;
    o_written : list (string * list byte);
    o_unlinked : list string;
    o_raise : option exn }.

Definition record_video (o : outcome) (w : world) : world :=
  match port1 w with
  | ToStream =>
      let r := drop (o_evicted o) (ring (stream w)) ++ o_video o in
      set_stream {| ring := r; position := length (concat (map payload r)) |} w
  | ToFile path =>
      set_files (alter (fun old => old ++ concat (map payload (o_video o)))
                       path (files w)) w
  end.

Definition other_processes (o : outcome) (w : world) : world :=
  let written := fold_left (fun m kv => <[fst kv := snd kv]> m) (o_written o) (files w) in
  set_files (fold_left (fun m k => delete k m) (o_unlinked o) written) w.

Definition environment (o : outcome) (w : world) : world :=
  set_time (o_clock o) (o_today o)
    (other_processes o
      (record_video o
        (set_output (analyze_all (output w) (o_motion o)) w))).

(** A blocking call: the environment acts, then the call returns or raises. *)
Definition blocking (o : outcome) : M unit :=
  fun w => match o_raise o with
           | Some e => Raise e (environment o w)
           | None => Ok tt (environment o w)
           end.

(** *** File operations *)

(** [os.remove(path)]. *)
Definition os_remove (path : string) : M unit :=
  w <- get ;;
  match files w !! path with
  | None => raise (FileNotFoundError path)
  | Some _ => modify (set_files (delete path (files w)))
  end.

(** [open(path, 'ab')] creates the file when it is missing. An open that
    fails otherwise (an [OSError]) is not modelled. *)
Definition open_append (path : string) : M unit :=
  modify (fun w =>
    match files w !! path with
    | None => set_files (<[path := []]> (files w)) w
    | Some _ => w
    end).

(** [open(path, 'rb')] followed by [read()]. *)
Definition read_file (path : string) : M (list byte) :=
  w <- get ;;
  match files w !! path with
  | None => raise (FileNotFoundError path)
  | Some data => ret data
  end.

(** [write] on a file opened for appending. A write that fails (an
    [OSError], as on a full disk) is not modelled. *)
Definition append_file (path : string) (data : list byte) : M unit :=
  modify (fun w => set_files (alter (fun old => old ++ data) path (files w)) w).

(** [concat_vids], lines 87-90. *)
Definition concat_vids (t : string) : M unit :=
  open_append (h264 t) ;;
  data <- read_file "after.h264" ;;
  append_file (h264 t) data ;;
  os_remove "after.h264".

(** [write_video], lines 67-84: the ring from its first SPS header (from
    the current position when there is none) goes to a fresh [<ts>.h264],
    then the stream is rewound and truncated. An [io.open] or [write]
    that fails (an [OSError]) is not modelled. *)
Definition write_video (t : string) : M unit :=
  modify (fun w =>
    let s := stream w in
    let start := match first_sps 0 (ring s) with
                 | Some p => p
                 | None => position s
                 end in
    set_stream {| ring := []; position := 0 |}
      (set_files (<[h264 t := drop start (ring_bytes s)]> (files w)) w)).

(** [subprocess.run(cmd, ...)]: blocks until the process ends; the result
    carries its exit code. *)
Definition subprocess_run (cmd : list string) (o : outcome) : M Z :=
  blocking o ;;
  modify (fun w => set_procs (procs w ++ [(cmd, o_returncode o)]) w) ;;
  ret (o_returncode o).

Definition avconv_cmd (infile outfile : string) : list string :=
  ["/usr/bin/avconv"; "-i"; infile; "-acodec"; "copy"; "-vcodec"; "copy"; outfile]%string.

(** [convert_video], lines 93-99; [o] is what the run of the transcoder
    turns out to be. *)
Definition convert_video (t : string) (o : outcome) : M unit :=
  let infile := h264 t in
  let outfile := mp4 t in
  returncode <- subprocess_run (avconv_cmd infile outfile) o ;;
  if returncode =? 0 then os_remove infile else ret tt.

(** *** Camera operations *)

(** [camera.split_recording(dest)] on splitter port 1: a file name is
    opened for writing (created or emptied), the stream is used as it is. *)
Definition split_recording (dest : target) : M unit :=
  modify (fun w =>
    match dest with
    | ToStream => set_port1 ToStream w
    | ToFile path => set_port1 (ToFile path) (set_files (<[path := []]> (files w)) w)
    end).

(** [camera.capture(name, use_video_port=True)]. *)
Definition capture (name : string) (o : outcome) : M unit :=
  blocking o ;;
  modify (fun w => set_stills (stills w ++ [name])
                     (set_files (<[name := o_jpeg o]> (files w)) w)).

(** [next(img_name)]. *)
Definition next_img_name : M string :=
  w <- get ;;
  let (counter, name) := gen_img_name_next (img_counter w) (today w) in
  modify (set_img_counter counter) ;;
  ret name.

(** Reading the local [ts]: unbound until the first episode assigns it. *)
Definition read_ts : M string :=
  w <- get ;;
  match ts w with
  | None => raise (UnboundLocalError "ts")
  | Some t => ret t
  end.

(** [camera.stop_recording(splitter_port=sp)] for [sp] in [[1, 2]]. *)
Definition stop_all (w : world) : world :=
  fold_left (fun w sp => set_recording (List.filter (fun p => negb (Nat.eqb p sp))
                                                    (recording w)) w)
            [1%nat; 2%nat] w.

(** ** [main] *)

(** The keyword arguments of [main]. [convert_vids] is used both as a
    truth value and as a number of seconds: [False] is 0 and [True] is 1. *)
Record main_args : Type := mkArgs
  { motion_size : N * N;
    flip : bool;
    convert_vids : Q;
    circular_secs : Q;
    still_img_interval : Q }.

Definition default_args : main_args :=
  {| motion_size := (640%N, 480%N); flip := false; convert_vids := 0%Q;
     circular_secs := 5%Q; still_img_interval := (1 # 4)%Q |}.

(** Line 154: [main(flip=True, convert_vids=True)]. *)
Definition script_args : main_args :=
  {| motion_size := (640%N, 480%N); flip := true; convert_vids := 1%Q;
     circular_secs := 5%Q; still_img_interval := (1 # 4)%Q |}.

Definition truthy (q : Q) : bool := negb (Qeq_bool q 0).

(** The blocking calls of the [try] block, and where [main] stands when it
    is in one of them. *)
Inductive call : Type :=
  | wait_recording (secs : Q) (splitter_port : nat)
  | camera_capture (name : string)
  | run_process (cmd : list string).

Inductive control : Type :=
  | Warmup                         (* line 122 *)
  | TickWait                       (* line 126 *)
  | MotionWait                     (* line 127 *)
  | Capturing (name : string)      (* line 135 *)
  | StillWait                      (* line 136 *)
  | Converting (t : string)        (* line 142, inside [convert_video] *)
  | Exited (error : option exn).   (* [main] is over: returned, or raised *)

Definition pending (args : main_args) (c : control) : option call :=
  match c with
  | Warmup => Some (wait_recording 2 1)
  | TickWait => Some (wait_recording 1 1)
  | MotionWait => Some (wait_recording 0 2)
  | Capturing name => Some (camera_capture name)
  | StillWait => Some (wait_recording (still_img_interval args) 1)
  | Converting t => Some (run_process (avconv_cmd (h264 t) (mp4 t)))
  | Exited _ => None
  end.

(** Lines 137-138, then back to the top of the outer loop. *)
Definition end_episode : M control :=
  split_recording ToStream ;;
  t <- read_ts ;;
  concat_vids t ;;
  ret TickWait.

(** The test of the inner [while], line 133, up to the next blocking call. *)
Definition while_motion : M control :=
  w <- get ;;
  if motion_detected (output w) then
    name <- next_img_name ;;
    ret (Capturing name)
  else end_episode.

(** Lines 128-142, from the test of the [if] to the next blocking call. *)
Definition after_waits (args : main_args) : M control :=
  w <- get ;;
  if motion_detected (output w) then
    split_recording (ToFile "after.h264") ;;
    modify (fun w => set_ts (Some (format_ts (today w))) w) ;;
    t <- read_ts ;;
    write_video t ;;
    while_motion
  else if truthy (convert_vids args)
          && Qgtb (clock w - latest_motion (output w)) (convert_vids args) then
    t <- read_ts ;;
    ret (Converting t)
  else ret TickWait.

(** From the return of the pending blocking call to the next one. *)
Definition resume (args : main_args) (c : control) (o : outcome) : M control :=
  match c with
  | Warmup =>
      blocking o ;;
      modify (fun w => set_output (set_motion_detected false (output w)) w) ;;
      ret TickWait
  | TickWait => blocking o ;; ret MotionWait
  | MotionWait => blocking o ;; after_waits args
  | Capturing name => capture name o ;; ret StillWait
  | StillWait => blocking o ;; while_motion
  | Converting t => convert_video t o ;; ret TickWait
  | Exited r => ret (Exited r)
  end.

Record state : Type := mkState { pc : control; env : world }.

(** Lines 144-150: [KeyboardInterrupt] is swallowed, anything else goes on
    after the [finally] block. *)
Definition leave (e : exn) (w : world) : state :=
  {| pc := Exited (if is_KeyboardInterrupt e then None else Some e);
     env := stop_all w |}.

(** One blocking call of [main] returns (or raises) with outcome [o]. *)
Definition step (args : main_args) (s : state) (o : outcome) : state :=
  match pc s with
  | Exited _ => s
  | c =>
      match resume args c o (env s) with
      | Ok c' w' => {| pc := c'; env := w' |}
      | Raise e w' => leave e w'
      end
  end.

Definition run (args : main_args) (s : state) (script : list outcome) : state :=
  fold_left (step args) script s.

(** The state on entering the [try] block of line 120: both recordings
    started, the generator created, [ts] not yet bound. *)
Definition start (dir : gmap string (list byte)) (now : Q) (d : datetime) : state :=
  {| pc := Warmup;
     env := {| files := dir; output := Motion.default; clock := now; today := d;
               stream := {| ring := []; position := 0 |}; port1 := ToStream;
               recording := [1%nat; 2%nat]; img_counter := 0; ts := None;
               stills := []; procs := [] |} |}.

End Picam.

(** ** Vocabulary of the specification for the control loop, and sample runs *)

Module Scenario.

Import Motion Names Picam.

(** No outcome of the script raises: every blocking call returns. *)
Definition all_return (script : list outcome) : bool :=
  forallb (fun o => match o_raise o with None => true | Some _ => false end) script.

(** No motion frame delivered during the script triggers. *)
Definition no_trigger (cfg : DetectMotion) (script : list outcome) : bool :=
  forallb (fun o => forallb (fun ft => negb (triggers cfg (fst ft))) (o_motion o)) script.

(** A command that ended with a non-zero exit code is not run again. *)
Definition no_retry (log : list (list string * Z)) : Prop :=
  forall (i j : nat) (cmd : list string) (rc rc' : Z),
    (i < j)%nat ->
    log !! i = Some (cmd, rc) -> rc <> 0 ->
    log !! j = Some (cmd, rc') -> False.

(** [main] is still in its loop. *)
Definition monitoring (s : state) : bool :=
  match pc s with Exited _ => false | _ => true end.

(** A frame with 21 vectors of magnitude 31 and one with 20 of them and
    five vectors of magnitude exactly 30. *)
Definition busy_frame : frame := [repeat (MotionVector 31 0 0) 21].
Definition edge_frame : frame :=
  [repeat (MotionVector 31 0 0) 20; repeat (MotionVector 18 24 0) 5].
Definition still_frame : frame := [repeat (MotionVector 0 0 0) 21].

Definition noon : datetime := mkDatetime 2017 3 5 12 0 0.
Definition at_second (sec : N) : datetime := mkDatetime 2017 3 5 12 0 sec.

(** An outcome at clock [t] (seconds past [noon]) with the given motion frames. *)
Definition quiet (t : Q) (sec : N) (frames : list (frame * Q)) : outcome :=
  {| o_clock := t; o_today := at_second sec; o_motion := frames;
     o_video := [mkVideoFrame true [x00; x01]%byte]; o_evicted := 0;
     o_jpeg := [xff; xd8]%byte; o_returncode := 0;
     o_written := []; o_unlinked := []; o_raise := None |}.

Definition failing (t : Q) (sec : N) : outcome :=
  {| o_clock := t; o_today := at_second sec; o_motion := [];
     o_video := []; o_evicted := 0; o_jpeg := []; o_returncode := 1;
     o_written := []; o_unlinked := []; o_raise := None |}.

Definition unlinking (t : Q) (sec : N) (frames : list (frame * Q))
    (paths : list string) : outcome :=
  {| o_clock := t; o_today := at_second sec; o_motion := frames;
     o_video := []; o_evicted := 0; o_jpeg := []; o_returncode := 0;
     o_written := []; o_unlinked := paths; o_raise := None |}.

Local Open Scope Q_scope.

(** One episode: motion at t=3, one still, motion times out at t=9. *)
Definition one_episode : list outcome :=
  [ quiet 2 2 [];                         (* warm-up *)
    quiet 3 3 [(busy_frame, 3)];          (* line 126 *)
    quiet 3 3 [];                         (* line 127: episode opens *)
    quiet 3 3 [];                         (* capture *)
    quiet 9 9 [(still_frame, 9)] ].       (* line 136: motion is over *)

(** Then a quiet tick, and the transcoder fails twice in a row. *)
Definition failed_conversions : list outcome :=
  one_episode ++
  [ quiet 11 11 []; quiet 11 11 []; failing 12 12;
    quiet 13 13 []; quiet 13 13 []; failing 14 14 ].

(** A second episode opens at t=20. *)
Definition second_episode : list outcome :=
  one_episode ++ [ quiet 20 20 [(busy_frame, 20)]; quiet 20 20 [] ].

(** Another process removes [after.h264] while the episode is open. *)
Definition lost_after : list outcome :=
  [ quiet 2 2 [];
    quiet 3 3 [(busy_frame, 3)];
    quiet 3 3 [];
    quiet 3 3 [];
    unlinking 9 9 [(still_frame, 9)] ["after.h264"%string] ].

(** Motion during warm-up only, then nothing. *)
Definition transient_only : list outcome :=
  [ quiet 3 3 [(still_frame, 3)]; quiet 3 3 [] ].

End Scenario.

(** ** Properties of [DetectMotion.analyze] *)

Module MotionFacts.

Import Motion.

Lemma Qgtb_true (a b : Q) : Qgtb a b = true <-> (b < a)%Q.
Proof.
  unfold Qgtb. rewrite negb_true_iff, <- not_true_iff_false, Qle_bool_iff.
  split; intro H; lra.
Qed.

Lemma Qgtb_false (a b : Q) : Qgtb a b = false <-> (a <= b)%Q.
Proof.
  unfold Qgtb. rewrite negb_false_iff, Qle_bool_iff. reflexivity.
Qed.

Lemma magnitude_clipped (v : motion_vector) :
  magnitude v = Z.min 255 (Z.sqrt (mv_x v * mv_x v + mv_y v * mv_y v)).
Proof.
  unfold magnitude, astype_uint8, clip.
  pose proof (Z.sqrt_nonneg (mv_x v * mv_x v + mv_y v * mv_y v)) as Hs.
  rewrite Z.max_r by exact Hs.
  apply Z.mod_small. lia.
Qed.

Lemma magnitude_uint8 (v : motion_vector) : 0 <= magnitude v <= 255.
Proof.
  rewrite magnitude_clipped.
  pose proof (Z.sqrt_nonneg (mv_x v * mv_x v + mv_y v * mv_y v)). lia.
Qed.

(** Below the clipping bound the magnitude is the floor of the square root. *)
Lemma magnitude_floor (v : motion_vector) :
  let s := mv_x v * mv_x v + mv_y v * mv_y v in
  s < 256 * 256 ->
  magnitude v * magnitude v <= s < (magnitude v + 1) * (magnitude v + 1).
Proof.
  intros s Hs. rewrite magnitude_clipped. fold s.
  assert (0 <= s) by (unfold s; nia).
  assert (Z.sqrt s < 256) by (apply Z.sqrt_lt_square; lia).
  rewrite Z.min_r by lia.
  pose proof (Z.sqrt_spec s ltac:(assumption)) as Hq.
  unfold Z.succ in Hq. exact Hq.
Qed.

Lemma magnitude_saturates (v : motion_vector) :
  255 * 255 <= mv_x v * mv_x v + mv_y v * mv_y v -> magnitude v = 255.
Proof.
  intros Hs. rewrite magnitude_clipped.
  assert (255 <= Z.sqrt (mv_x v * mv_x v + mv_y v * mv_y v))
    by (apply Z.sqrt_le_square; lia).
  lia.
Qed.

(** Counting over the magnitudes is counting the vectors of the frame. *)
Lemma count_gt_vectors (a : frame) (threshold : Z) :
  count_gt (magnitudes a) threshold =
  Z.of_nat (length (List.filter (fun v => threshold <? magnitude v) (concat a))).
Proof.
  unfold count_gt, magnitudes. f_equal.
  induction a as [|row a IH]; simpl; [reflexivity|].
  rewrite !List.filter_app, !length_app, IH. f_equal.
  clear IH. induction row as [|v row IH]; simpl; [reflexivity|].
  destruct (threshold <? magnitude v); simpl; rewrite IH; reflexivity.
Qed.

Lemma triggers_true (self : DetectMotion) (a : frame) :
  triggers self a = true <->
  motion_vector_count self < count_gt (magnitudes a) (motion_magnitude self).
Proof. unfold triggers. apply Z.ltb_lt. Qed.

Lemma triggers_false (self : DetectMotion) (a : frame) :
  triggers self a = false <->
  count_gt (magnitudes a) (motion_magnitude self) <= motion_vector_count self.
Proof. unfold triggers. apply Z.ltb_ge. Qed.

(** [analyze] assigns [latest_motion] and [motion_detected] only. *)
Lemma analyze_settings (self : DetectMotion) (a : frame) (now : Q) :
  motion_magnitude (analyze self a now) = motion_magnitude self /\
  motion_vector_count (analyze self a now) = motion_vector_count self /\
  motion_timeout (analyze self a now) = motion_timeout self.
Proof.
  unfold analyze. destruct (triggers self a); [|destruct (timed_out self now)];
    simpl; auto.
Qed.

Lemma triggers_analyze (self : DetectMotion) (a a' : frame) (now : Q) :
  triggers (analyze self a now) a' = triggers self a'.
Proof.
  unfold triggers. destruct (analyze_settings self a now) as (-> & -> & _).
  reflexivity.
Qed.

Lemma analyze_triggered (self : DetectMotion) (a : frame) (now : Q) :
  triggers self a = true ->
  analyze self a now = set_motion_detected true (set_latest_motion now self).
Proof. unfold analyze. intros ->. reflexivity. Qed.

Lemma analyze_latest_same (self : DetectMotion) (a : frame) (now : Q) :
  triggers self a = false ->
  latest_motion (analyze self a now) = latest_motion self.
Proof.
  unfold analyze. intros ->. destruct (timed_out self now); reflexivity.
Qed.

Lemma analyze_cleared (self : DetectMotion) (a : frame) (now : Q) :
  motion_detected self = true ->
  motion_detected (analyze self a now) = false ->
  triggers self a = false /\
  (motion_timeout self < now - latest_motion self)%Q.
Proof.
  unfold analyze, timed_out. intros Hd.
  destruct (triggers self a); simpl; [discriminate|].
  rewrite Hd. simpl.
  destruct (Qgtb _ _) eqn:Hg; simpl.
  - intros _. split; [reflexivity|]. apply Qgtb_true. exact Hg.
  - congruence.
Qed.

Lemma analyze_coasts (self : DetectMotion) (a : frame) (now : Q) :
  motion_detected self = true ->
  (now - latest_motion self <= motion_timeout self)%Q ->
  motion_detected (analyze self a now) = true.
Proof.
  unfold analyze, timed_out. intros Hd Hw.
  destruct (triggers self a); simpl; [reflexivity|].
  apply Qgtb_false in Hw. rewrite Hd, Hw. simpl. exact Hd.
Qed.

Lemma analyze_stays_off (self : DetectMotion) (a : frame) (now : Q) :
  triggers self a = false ->
  motion_detected self = false ->
  motion_detected (analyze self a now) = false.
Proof.
  unfold analyze, timed_out. intros Ht Hd. rewrite Ht, Hd. simpl. exact Hd.
Qed.

Lemma analyze_all_app (self : DetectMotion) (fs gs : list (frame * Q)) :
  analyze_all self (fs ++ gs) = analyze_all (analyze_all self fs) gs.
Proof. unfold analyze_all. apply fold_left_app. Qed.

Lemma analyze_all_settings (self : DetectMotion) (fs : list (frame * Q)) :
  motion_magnitude (analyze_all self fs) = motion_magnitude self /\
  motion_vector_count (analyze_all self fs) = motion_vector_count self /\
  motion_timeout (analyze_all self fs) = motion_timeout self.
Proof.
  revert self. induction fs as [|[a t] fs IH]; intros self; simpl; [auto|].
  destruct (IH (analyze self a t)) as (-> & -> & ->).
  apply analyze_settings.
Qed.

Lemma triggers_settings (s s' : DetectMotion) (a : frame) :
  motion_magnitude s = motion_magnitude s' ->
  motion_vector_count s = motion_vector_count s' ->
  triggers s a = triggers s' a.
Proof. unfold triggers. intros -> ->. reflexivity. Qed.

Lemma last_trigger_settings (s s' : DetectMotion) (t0 : Q) (fs : list (frame * Q)) :
  motion_magnitude s = motion_magnitude s' ->
  motion_vector_count s = motion_vector_count s' ->
  last_trigger s t0 fs = last_trigger s' t0 fs.
Proof.
  intros Hm Hc. revert t0. induction fs as [|[a t] fs IH]; intros t0; simpl.
  - reflexivity.
  - rewrite (triggers_settings s s' a Hm Hc). apply IH.
Qed.

(** [latest_motion] is the time of the last triggering frame. *)
Lemma analyze_all_latest (self : DetectMotion) (fs : list (frame * Q)) :
  latest_motion (analyze_all self fs) = last_trigger self (latest_motion self) fs.
Proof.
  revert self. induction fs as [|[a t] fs IH]; intros self; simpl; [reflexivity|].
  rewrite IH.
  destruct (analyze_settings self a t) as (Hm & Hc & _).
  rewrite (last_trigger_settings _ self _ _ Hm Hc).
  destruct (triggers self a) eqn:Ht.
  - rewrite (analyze_triggered _ _ _ Ht). reflexivity.
  - rewrite (analyze_latest_same _ _ _ Ht). reflexivity.
Qed.

Lemma clock_monotone_from (t0 t1 : Q) (ts : list Q) :
  (t0 <= t1)%Q -> clock_monotone t1 ts = true -> clock_monotone t0 ts = true.
Proof.
  destruct ts as [|t ts]; simpl; [reflexivity|].
  intros H01. rewrite !andb_true_iff, !Qle_bool_iff.
  intros [H1 Hr]. split; [lra|exact Hr].
Qed.

Lemma last_trigger_before (self : DetectMotion) (t0 : Q)
    (pre : list (frame * Q)) (now : Q) (rest : list Q) :
  clock_monotone t0 (map snd pre ++ now :: rest) = true ->
  (last_trigger self t0 pre <= now)%Q.
Proof.
  revert t0. induction pre as [|[a t] pre IH]; intros t0; simpl.
  - rewrite andb_true_iff, Qle_bool_iff. tauto.
  - rewrite andb_true_iff, Qle_bool_iff. intros [H0 Hr].
    destruct (triggers self a).
    + apply IH. exact Hr.
    + apply IH. apply (clock_monotone_from t0 t); assumption.
Qed.

Lemma in_window_settings (s s' : DetectMotion) (t0 : Q) (fs : list (frame * Q)) :
  motion_magnitude s = motion_magnitude s' ->
  motion_vector_count s = motion_vector_count s' ->
  motion_timeout s = motion_timeout s' ->
  in_window s t0 fs = in_window s' t0 fs.
Proof.
  intros Hm Hc Ho. revert t0. induction fs as [|[a t] fs IH]; intros t0; simpl.
  - reflexivity.
  - rewrite (triggers_settings s s' a Hm Hc), Ho, !IH. reflexivity.
Qed.

(** Inside the window the detector stays on. *)
Lemma in_window_active (self : DetectMotion) (fs : list (frame * Q)) :
  motion_detected self = true ->
  in_window self (latest_motion self) fs = true ->
  motion_detected (analyze_all self fs) = true.
Proof.
  revert self. induction fs as [|[a t] fs IH]; intros self Hd; simpl; [auto|].
  destruct (analyze_settings self a t) as (Hm & Hc & Ho).
  rewrite <- (in_window_settings (analyze self a t) self _ _ Hm Hc Ho).
  rewrite <- (in_window_settings (analyze self a t) self _ _ Hm Hc Ho).
  rewrite <- Ho.
  destruct (triggers self a) eqn:Ht.
  - intros Hw. apply IH.
    + rewrite (analyze_triggered _ _ _ Ht). reflexivity.
    + rewrite (analyze_triggered _ _ _ Ht) at 2. simpl. exact Hw.
  - rewrite andb_true_iff, Qle_bool_iff. intros [Hle Hw]. apply IH.
    + apply analyze_coasts; [assumption|]. rewrite <- Ho. exact Hle.
    + rewrite (analyze_latest_same _ _ _ Ht). exact Hw.
Qed.

End MotionFacts.

Module MotionClaims.

Import Motion MotionFacts Scenario.

(** The number of vectors of a frame whose magnitude is strictly greater
    than the threshold, counted on the vectors themselves. *)
Definition vectors_over (self : DetectMotion) (a : frame) : Z :=
  Z.of_nat (length (List.filter (fun v => motion_magnitude self <? magnitude v) (concat a))).

Lemma vectors_over_count (self : DetectMotion) (a : frame) :
  vectors_over self a = count_gt (magnitudes a) (motion_magnitude self).
Proof. unfold vectors_over. symmetry. apply count_gt_vectors. Qed.

(** C1. Every vector is mapped to the integer part of sqrt(x^2 + y^2),
    clipped to 255, a value that fits 8 unsigned bits (below the bound it
    is the largest m with m^2 <= x^2 + y^2); the thresholds
    default to 30 and 20; and when strictly more than
    [motion_vector_count] vectors have a magnitude strictly greater than
    [motion_magnitude], [analyze] sets [motion_detected] to true and
    [latest_motion] to the current time, whatever the state was before,
    and changes nothing else. *)
Theorem analyze_records_motion (self : DetectMotion) (a : frame) (now : Q) :
  motion_vector_count self < vectors_over self a ->
  (forall v : motion_vector,
      let s := mv_x v * mv_x v + mv_y v * mv_y v in
      magnitude v = Z.min 255 (Z.sqrt s) /\
      0 <= magnitude v < 2 ^ 8 /\
      (s < 256 * 256 ->
       magnitude v * magnitude v <= s < (magnitude v + 1) * (magnitude v + 1)) /\
      (255 * 255 <= s -> magnitude v = 255)) /\
  (motion_magnitude default = 30 /\ motion_vector_count default = 20) /\
  motion_detected (analyze self a now) = true /\
  latest_motion (analyze self a now) = now /\
  analyze self a now =
    mkDetectMotion (motion_magnitude self) (motion_vector_count self)
                   true now (motion_timeout self).
Proof.
  intros Hover.
  split.
  { intros v s. split; [apply magnitude_clipped|].
    split; [pose proof (magnitude_uint8 v); lia|].
    split; [apply magnitude_floor|apply magnitude_saturates]. }
  split; [split; reflexivity|].
  rewrite vectors_over_count in Hover. apply triggers_true in Hover.
  rewrite (analyze_triggered _ _ _ Hover). auto.
Qed.

Lemma analyze_records_motion_witness :
  motion_detected (analyze default busy_frame 3) = true /\
  latest_motion (analyze default busy_frame 3) = 3%Q.
Proof.
  destruct (analyze_records_motion default busy_frame 3) as (_ & _ & Hd & Hl & _).
  - vm_compute. reflexivity.
  - split; [exact Hd|exact Hl].
Defined.

(** C2 (as the code has it). After a triggering frame at time [t0]:
    [motion_detected] is true; it stays true over every run of frames in
    which each frame that does not trigger arrives within
    [motion_timeout] of the last triggering one; at every step
    [latest_motion] is the time of the last triggering frame, and a step
    either keeps it or, on a triggering frame, sets it to the current
    reading of the clock, so that it does not decrease as long as the
    readings of the clock do not go back; a step keeps [motion_detected]
    true while no more than [motion_timeout] has passed since
    [latest_motion]; and a step takes it from true to false only on a
    frame that does not trigger, with now - [latest_motion] strictly
    greater than [motion_timeout]. *)
Theorem analyze_hysteresis (self : DetectMotion) (a0 : frame) (t0 : Q)
    (fs : list (frame * Q)) :
  triggers self a0 = true ->
  let s1 := analyze self a0 t0 in
  motion_detected s1 = true /\ latest_motion s1 = t0 /\
  (forall pre post, fs = pre ++ post ->
     in_window self t0 pre = true ->
     motion_detected (analyze_all s1 pre) = true) /\
  (forall pre a now post, fs = pre ++ (a, now) :: post ->
     let s := analyze_all s1 pre in
     let s' := analyze s a now in
     latest_motion s = last_trigger self t0 pre /\
     (latest_motion s' = latest_motion s \/
      (triggers self a = true /\ latest_motion s' = now)) /\
     (clock_monotone t0 (map snd fs) = true ->
      (latest_motion s <= latest_motion s')%Q) /\
     (motion_detected s = true ->
      (now - latest_motion s <= motion_timeout self)%Q ->
      motion_detected s' = true) /\
     (motion_detected s = true -> motion_detected s' = false ->
      triggers self a = false /\
      (motion_timeout self < now - latest_motion s)%Q)).
Proof.
  intros Ht0 s1.
  assert (Hs1 : s1 = set_motion_detected true (set_latest_motion t0 self))
    by (apply analyze_triggered; exact Ht0).
  destruct (analyze_settings self a0 t0) as (Hm1 & Hc1 & Ho1). fold s1 in Hm1, Hc1, Ho1.
  split; [rewrite Hs1; reflexivity|].
  split; [rewrite Hs1; reflexivity|].
  split.
  - intros pre post _ Hw. apply in_window_active.
    + rewrite Hs1. reflexivity.
    + rewrite (in_window_settings s1 self _ _ Hm1 Hc1 Ho1).
      rewrite Hs1 at 1. simpl. exact Hw.
  - intros pre a now post Hfs s s'.
    destruct (analyze_all_settings s1 pre) as (Hm & Hc & Ho). fold s in Hm, Hc, Ho.
    assert (Hlast : latest_motion s = last_trigger self t0 pre).
    { unfold s. rewrite analyze_all_latest.
      rewrite (last_trigger_settings s1 self _ _ Hm1 Hc1).
      rewrite Hs1. reflexivity. }
    assert (Htrig : triggers s a = triggers self a).
    { apply triggers_settings; congruence. }
    split; [exact Hlast|]. split; [|split; [|split]].
    + unfold s'. rewrite <- Htrig. destruct (triggers s a) eqn:Ht.
      * right. rewrite (analyze_triggered _ _ _ Ht). split; reflexivity.
      * left. apply analyze_latest_same. exact Ht.
    + intros Hclock. unfold s'. destruct (triggers s a) eqn:Ht.
      * rewrite (analyze_triggered _ _ _ Ht). simpl. rewrite Hlast.
        apply (last_trigger_before self t0 pre now (map snd post)).
        rewrite Hfs, map_app in Hclock. exact Hclock.
      * rewrite (analyze_latest_same _ _ _ Ht). apply Qle_refl.
    + intros Hd Hle. apply analyze_coasts; [exact Hd|].
      rewrite Ho, Ho1. exact Hle.
    + intros Hd Hoff. rewrite <- Htrig, <- Ho1, <- Ho.
      apply analyze_cleared; assumption.
Qed.

Lemma analyze_hysteresis_witness :
  motion_detected
    (analyze_all (analyze default busy_frame 0) [(still_frame, (49 # 10)%Q)]) = true.
Proof.
  destruct (analyze_hysteresis default busy_frame 0
              [(still_frame, (49 # 10)%Q); (still_frame, (51 # 10)%Q)])
    as (_ & _ & Hwin & _).
  - vm_compute. reflexivity.
  - apply (Hwin [(still_frame, (49 # 10)%Q)] [(still_frame, (51 # 10)%Q)]).
    + reflexivity.
    + vm_compute. reflexivity.
Defined.

(** C2 as stated fails: line 60 stores the reading of [time.time()]
    whatever it is. With the detector on and [latest_motion] at 10, a
    triggering frame analysed when the clock, stepped back, reads 4 leaves
    the detector on and lowers [latest_motion] to 4. *)
Lemma clock_stepped_back_lowers_timestamp :
  let s := analyze default busy_frame 10 in
  let s' := analyze s busy_frame 4 in
  motion_detected s = true /\ latest_motion s = 10%Q /\
  motion_detected s' = true /\ latest_motion s' = 4%Q /\
  ~ (forall (self : DetectMotion) (a : frame) (now : Q),
       motion_detected self = true ->
       (latest_motion self <= latest_motion (analyze self a now))%Q).
Proof.
  intros s s'.
  split; [reflexivity|]. split; [reflexivity|].
  split; [reflexivity|]. split; [reflexivity|].
  intros Hmono.
  specialize (Hmono s busy_frame 4%Q eq_refl).
  change (latest_motion (analyze s busy_frame 4%Q)) with 4%Q in Hmono.
  change (latest_motion s) with 10%Q in Hmono.
  revert Hmono. unfold Qle. simpl. lia.
Qed.

(** C3. When the number of vectors with magnitude strictly greater than
    [motion_magnitude] is at most [motion_vector_count] (equal to it in
    particular) and [motion_detected] was false, it is false after
    [analyze]. The three comparisons are strict: vectors whose magnitude
    is at most [motion_magnitude] are not counted, the count has to
    exceed [motion_vector_count], and [motion_detected] is not cleared
    when exactly [motion_timeout] has passed. *)
Theorem analyze_needs_more (self : DetectMotion) (a : frame) (now : Q) :
  vectors_over self a <= motion_vector_count self ->
  (motion_detected self = false -> motion_detected (analyze self a now) = false) /\
  (forall extra : list motion_vector,
      (forall v, In v extra -> magnitude v <= motion_magnitude self) ->
      vectors_over self (extra :: a) = vectors_over self a) /\
  (vectors_over self a = motion_vector_count self -> triggers self a = false) /\
  (motion_detected self = true ->
   (now - latest_motion self == motion_timeout self)%Q ->
   analyze self a now = self).
Proof.
  intros Hle. pose proof Hle as Hnt.
  rewrite vectors_over_count in Hnt. apply triggers_false in Hnt.
  split; [apply analyze_stays_off; exact Hnt|].
  split.
  { intros extra Hall. unfold vectors_over. simpl.
    rewrite List.filter_app, length_app.
    replace (List.filter _ extra) with (@nil motion_vector); [reflexivity|].
    symmetry. induction extra as [|v extra IH]; simpl; [reflexivity|].
    assert (Hv : (motion_magnitude self <? magnitude v) = false).
    { apply Z.ltb_ge. apply Hall. left. reflexivity. }
    rewrite Hv. apply IH. intros v' Hin. apply Hall. right. exact Hin. }
  split; [intros _; exact Hnt|].
  intros Hd Heq. unfold analyze, timed_out. rewrite Hnt, Hd. simpl.
  assert (Hg : Qgtb (now - latest_motion self) (motion_timeout self) = false).
  { apply Qgtb_false. rewrite Heq. apply Qle_refl. }
  rewrite Hg. reflexivity.
Qed.

Lemma analyze_needs_more_witness :
  vectors_over default edge_frame = 20 /\
  motion_detected (analyze default edge_frame 7) = false.
Proof.
  split; [reflexivity|].
  destruct (analyze_needs_more default edge_frame 7) as (Hoff & _).
  - vm_compute. discriminate.
  - apply Hoff. reflexivity.
Defined.

(** C10. A frame that does not meet the trigger condition leaves
    [latest_motion] as it was, also when it clears [motion_detected]; a
    step that changes [latest_motion] is a triggering one (and sets it to
    the current time); so over any run of frames [latest_motion] is the
    time of the last triggering frame. *)
Theorem analyze_keeps_timestamp (self : DetectMotion) (a : frame) (now : Q) :
  vectors_over self a <= motion_vector_count self ->
  latest_motion (analyze self a now) = latest_motion self /\
  (timed_out self now = true ->
   motion_detected (analyze self a now) = false /\
   latest_motion (analyze self a now) = latest_motion self) /\
  (forall b t, latest_motion (analyze self b t) <> latest_motion self ->
               triggers self b = true /\ latest_motion (analyze self b t) = t) /\
  (forall fs, latest_motion (analyze_all self fs) =
              last_trigger self (latest_motion self) fs).
Proof.
  intros Hle. rewrite vectors_over_count in Hle. apply triggers_false in Hle.
  split; [apply analyze_latest_same; exact Hle|].
  split.
  { intros Hto. unfold analyze. rewrite Hle, Hto. split; reflexivity. }
  split.
  { intros b t Hchg. destruct (triggers self b) eqn:Hb.
    - split; [reflexivity|]. rewrite (analyze_triggered _ _ _ Hb). reflexivity.
    - exfalso. apply Hchg. apply analyze_latest_same. exact Hb. }
  apply analyze_all_latest.
Qed.

Lemma analyze_keeps_timestamp_witness :
  let s := analyze default busy_frame 1 in
  motion_detected (analyze s still_frame 9) = false /\
  latest_motion (analyze s still_frame 9) = 1%Q.
Proof.
  intros s.
  destruct (analyze_keeps_timestamp s still_frame 9) as (_ & Hclr & _).
  - vm_compute. discriminate.
  - apply Hclr. vm_compute. reflexivity.
Defined.

(** The scenario of the specification: one triggering frame at t = 0, then
    nothing; the detector is still on at t = 4.9 and off after the frame
    analysed at t = 5.1. *)
Example coasting_then_cleared :
  let s1 := analyze default busy_frame 0 in
  let s2 := analyze s1 still_frame (49 # 10) in
  let s3 := analyze s2 still_frame (51 # 10) in
  motion_detected s1 = true /\ motion_detected s2 = true /\
  motion_detected s3 = false /\ latest_motion s3 = 0%Q.
Proof. vm_compute. auto. Qed.

End MotionClaims.

(** ** Properties of the file operations and of [main] *)

Module PicamFacts.

Import Motion MotionFacts Names Picam Scenario.
Local Open Scope picam_scope.

(** *** What the environment leaves alone *)

Lemma record_video_same (o : outcome) (w : world) :
  output (record_video o w) = output w /\
  img_counter (record_video o w) = img_counter w /\
  ts (record_video o w) = ts w /\
  stills (record_video o w) = stills w /\
  procs (record_video o w) = procs w /\
  recording (record_video o w) = recording w /\
  port1 (record_video o w) = port1 w.
Proof. unfold record_video. destruct (port1 w) eqn:Hp; simpl; auto 10. Qed.

Lemma environment_output (o : outcome) (w : world) :
  output (environment o w) = analyze_all (output w) (o_motion o).
Proof.
  unfold environment. simpl.
  destruct (record_video_same o (set_output (analyze_all (output w) (o_motion o)) w))
    as (-> & _). reflexivity.
Qed.

Lemma environment_img_counter (o : outcome) (w : world) :
  img_counter (environment o w) = img_counter w.
Proof.
  unfold environment. simpl.
  destruct (record_video_same o (set_output (analyze_all (output w) (o_motion o)) w))
    as (_ & -> & _). reflexivity.
Qed.

Lemma environment_ts (o : outcome) (w : world) : ts (environment o w) = ts w.
Proof.
  unfold environment. simpl.
  destruct (record_video_same o (set_output (analyze_all (output w) (o_motion o)) w))
    as (_ & _ & -> & _). reflexivity.
Qed.

Lemma environment_stills (o : outcome) (w : world) :
  stills (environment o w) = stills w.
Proof.
  unfold environment. simpl.
  destruct (record_video_same o (set_output (analyze_all (output w) (o_motion o)) w))
    as (_ & _ & _ & -> & _). reflexivity.
Qed.

Lemma environment_procs (o : outcome) (w : world) :
  procs (environment o w) = procs w.
Proof.
  unfold environment. simpl.
  destruct (record_video_same o (set_output (analyze_all (output w) (o_motion o)) w))
    as (_ & _ & _ & _ & -> & _). reflexivity.
Qed.

Lemma environment_port1 (o : outcome) (w : world) :
  port1 (environment o w) = port1 w.
Proof.
  unfold environment. simpl.
  destruct (record_video_same o (set_output (analyze_all (output w) (o_motion o)) w))
    as (_ & _ & _ & _ & _ & _ & ->). reflexivity.
Qed.

Lemma environment_clock (o : outcome) (w : world) :
  clock (environment o w) = o_clock o /\ today (environment o w) = o_today o.
Proof. unfold environment. simpl. auto. Qed.

Lemma stop_all_same (w : world) :
  files (stop_all w) = files w /\ output (stop_all w) = output w /\
  img_counter (stop_all w) = img_counter w /\ ts (stop_all w) = ts w /\
  stills (stop_all w) = stills w /\ procs (stop_all w) = procs w /\
  port1 (stop_all w) = port1 w.
Proof. unfold stop_all. simpl. auto 10. Qed.

Lemma stop_all_recording (w : world) (sp : nat) :
  In sp (recording (stop_all w)) -> sp <> 1%nat /\ sp <> 2%nat.
Proof.
  unfold stop_all. simpl. rewrite !List.filter_In, !negb_true_iff, !Nat.eqb_neq.
  tauto.
Qed.

(** *** The file operations *)

Lemma os_remove_present (path : string) (w : world) :
  is_Some (files w !! path) ->
  os_remove path w = Ok tt (set_files (delete path (files w)) w).
Proof.
  intros [data Hd]. unfold os_remove, bind, get. simpl. rewrite Hd. reflexivity.
Qed.

Lemma os_remove_missing (path : string) (w : world) :
  files w !! path = None ->
  os_remove path w = Raise (FileNotFoundError path) w.
Proof.
  intros Hd. unfold os_remove, bind, get. simpl. rewrite Hd. reflexivity.
Qed.

Definition contents (w : world) (path : string) : list byte :=
  match files w !! path with Some data => data | None => [] end.

Lemma alter_present (m : gmap string (list byte)) (k : string)
    (f : list byte -> list byte) (b : list byte) :
  m !! k = Some b -> alter f k m = <[k := f b]> m.
Proof.
  intros Hb. apply map_eq. intros p.
  destruct (decide (p = k)) as [->|Hp].
  - rewrite lookup_alter_eq, lookup_insert_eq, Hb. reflexivity.
  - rewrite lookup_alter_ne, lookup_insert_ne by congruence. reflexivity.
Qed.

Lemma concat_vids_present (t : string) (w : world) (after : list byte) :
  h264 t <> "after.h264"%string ->
  files w !! "after.h264"%string = Some after ->
  concat_vids t w =
    Ok tt (set_files (delete "after.h264"%string
                        (<[h264 t := contents w (h264 t) ++ after]> (files w))) w).
Proof.
  intros Hne Ha.
  unfold concat_vids, open_append, read_file, append_file, bind, get, modify, ret.
  unfold contents. simpl.
  destruct (files w !! h264 t) as [before|] eqn:Hb; simpl.
  - rewrite Ha. simpl.
    rewrite (alter_present _ _ _ before Hb).
    rewrite os_remove_present
      by (simpl; rewrite lookup_insert_ne by exact Hne; rewrite Ha; eauto).
    reflexivity.
  - rewrite lookup_insert_ne by exact Hne. rewrite Ha. simpl.
    rewrite (alter_present _ _ _ [] (lookup_insert_eq _ _ _)).
    rewrite insert_insert_eq.
    rewrite os_remove_present
      by (simpl; rewrite lookup_insert_ne by exact Hne; rewrite Ha; eauto).
    reflexivity.
Qed.

Lemma concat_vids_missing (t : string) (w : world) :
  h264 t <> "after.h264"%string ->
  files w !! "after.h264"%string = None ->
  exists w', concat_vids t w = Raise (FileNotFoundError "after.h264") w'.
Proof.
  intros Hne Ha.
  unfold concat_vids, open_append, read_file, bind, get, modify, raise.
  simpl. destruct (files w !! h264 t) eqn:Hb; simpl.
  - rewrite Ha. eauto.
  - rewrite lookup_insert_ne by exact Hne. rewrite Ha. eauto.
Qed.

End PicamFacts.

Module NameFacts.

Import Names.
Local Open Scope N_scope.

(** A string that starts with a decimal digit. *)
Definition starts_with_digit (s : string) : Prop :=
  exists (d : N) (rest : string), d < 10 /\ s = String (digit_char d) rest.

Lemma decimal_aux_digit (fuel : nat) (n : N) (acc : string) :
  starts_with_digit acc \/ fuel <> O ->
  starts_with_digit (decimal_aux fuel n acc).
Proof.
  revert n acc. induction fuel as [|fuel IH]; intros n acc Hacc; simpl.
  - destruct Hacc as [Hacc|Hf]; [exact Hacc|congruence].
  - assert (Hd : starts_with_digit (String (digit_char (n mod 10)) acc)).
    { exists (n mod 10), acc. split; [|reflexivity].
      apply N.mod_lt. discriminate. }
    destruct (n / 10 =? 0); [exact Hd|].
    apply IH. left. exact Hd.
Qed.

Lemma zfill_digit (width : nat) (n : N) : starts_with_digit (zfill width n).
Proof.
  unfold zfill.
  assert (Hd : starts_with_digit (decimal n)).
  { unfold decimal. apply decimal_aux_digit. right. discriminate. }
  destruct (width - String.length (decimal n))%nat as [|k]; simpl.
  - exact Hd.
  - exists 0, (zeros k +:+ decimal n). split; [reflexivity|reflexivity].
Qed.

Lemma format_ts_digit (d : datetime) : starts_with_digit (format_ts d).
Proof.
  unfold format_ts.
  destruct (zfill_digit 4 (year d)) as (c & rest & Hc & ->).
  exists c. eexists. split; [exact Hc|]. simpl. reflexivity.
Qed.

Lemma string_length_app (a b : string) :
  String.length (a +:+ b) = (String.length a + String.length b)%nat.
Proof. induction a as [|c a IH]; simpl; [reflexivity|]. rewrite IH. reflexivity. Qed.

Lemma digit_char_not_a (d : N) : d < 10 -> digit_char d <> "a"%char.
Proof.
  intros Hd Heq.
  assert (Hn : N_of_ascii (digit_char d) = 97) by (rewrite Heq; reflexivity).
  unfold digit_char in Hn. rewrite N_ascii_embedding in Hn; lia.
Qed.

(** The file of an episode is never the [after.h264] scratch file. *)
Lemma format_ts_not_after (d : datetime) :
  h264 (format_ts d) <> "after.h264"%string.
Proof.
  destruct (format_ts_digit d) as (c & rest & Hc & Heq).
  unfold h264. rewrite Heq. simpl. intros H. inversion H as [[Hchar Hrest]].
  apply (digit_char_not_a c Hc). exact Hchar.
Qed.

End NameFacts.

Module LoopFacts.

Import Motion MotionFacts Names Picam Scenario PicamFacts.
Local Open Scope picam_scope.

#[local] Opaque environment stop_all.

(** *** A detector that is off and sees no triggering frame does not move *)

Lemma analyze_all_idle (cfg s : DetectMotion) (fs : list (frame * Q)) :
  motion_magnitude s = motion_magnitude cfg ->
  motion_vector_count s = motion_vector_count cfg ->
  motion_detected s = false ->
  forallb (fun ft => negb (triggers cfg (fst ft))) fs = true ->
  analyze_all s fs = s.
Proof.
  intros Hm Hc Hd. induction fs as [|[a t] fs IH]; simpl; [reflexivity|].
  rewrite andb_true_iff, negb_true_iff. intros [Ha Hfs].
  assert (Hs : analyze s a t = s).
  { unfold analyze, timed_out.
    rewrite (triggers_settings s cfg a Hm Hc), Ha, Hd. reflexivity. }
  rewrite Hs. apply IH. exact Hfs.
Qed.

(** *** Stills and the counter of the name generator *)

(** The [i]-th name (from 0) carries the counter value [i + 1]. *)
Definition numbered (l : list string) : Prop :=
  forall (i : nat) (name : string),
    l !! i = Some name -> exists d, name = img_name d (S i).

(** The counter is the number of stills taken, one more while a capture
    is pending under a name that is already generated. *)
Definition counted (s : state) : Prop :=
  numbered (stills (env s)) /\
  match pc s with
  | Capturing name =>
      img_counter (env s) = S (length (stills (env s))) /\
      exists d, name = img_name d (img_counter (env s))
  | Exited _ => True
  | _ => img_counter (env s) = length (stills (env s))
  end.

Definition keeps (w w' : world) : Prop :=
  stills w' = stills w /\ img_counter w' = img_counter w /\
  output w' = output w /\ today w' = today w.

(** A computation that touches neither the stills, the counter, the
    detector nor the clock, whether it returns or raises. *)
Definition quiet_on_stills {A} (c : M A) : Prop :=
  forall w, match c w with
            | Ok _ w' => keeps w w'
            | Raise _ w' => keeps w w'
            end.

Lemma keeps_refl (w : world) : keeps w w.
Proof. unfold keeps. auto. Qed.

Lemma keeps_trans (w1 w2 w3 : world) : keeps w1 w2 -> keeps w2 w3 -> keeps w1 w3.
Proof. unfold keeps. intros (-> & -> & -> & ->) (-> & -> & -> & ->). auto. Qed.

Lemma quiet_bind {A B} (c : M A) (k : A -> M B) :
  quiet_on_stills c -> (forall a, quiet_on_stills (k a)) -> quiet_on_stills (bind c k).
Proof.
  intros Hc Hk w. unfold bind. specialize (Hc w).
  destruct (c w) as [a w1|e w1]; [|exact Hc].
  specialize (Hk a w1). destruct (k a w1); eapply keeps_trans; eassumption.
Qed.

Lemma quiet_ret {A} (a : A) : quiet_on_stills (ret a).
Proof. intros w. apply keeps_refl. Qed.

Lemma quiet_raise {A} (e : exn) : quiet_on_stills (@raise A e).
Proof. intros w. apply keeps_refl. Qed.

Lemma quiet_get : quiet_on_stills get.
Proof. intros w. apply keeps_refl. Qed.

Lemma quiet_modify (f : world -> world) :
  (forall w, keeps w (f w)) -> quiet_on_stills (modify f).
Proof. intros Hf w. apply Hf. Qed.

Lemma quiet_os_remove (path : string) : quiet_on_stills (os_remove path).
Proof.
  unfold os_remove. apply quiet_bind; [apply quiet_get|]. intros w.
  destruct (files w !! path); [|apply quiet_raise].
  apply quiet_modify. intros w'. unfold keeps. simpl. auto.
Qed.

Lemma quiet_concat_vids (t : string) : quiet_on_stills (concat_vids t).
Proof.
  unfold concat_vids, open_append, read_file, append_file.
  apply quiet_bind.
  { apply quiet_modify. intros w. destruct (files w !! h264 t); unfold keeps; simpl; auto. }
  intros _. apply quiet_bind.
  { apply quiet_bind; [apply quiet_get|]. intros w.
    destruct (files w !! "after.h264"%string); [apply quiet_ret|apply quiet_raise]. }
  intros data. apply quiet_bind.
  { apply quiet_modify. intros w. unfold keeps. simpl. auto. }
  intros _. apply quiet_os_remove.
Qed.

Lemma quiet_split_recording (dest : target) : quiet_on_stills (split_recording dest).
Proof.
  apply quiet_modify. intros w. destruct dest; unfold keeps; simpl; auto.
Qed.

Lemma quiet_read_ts : quiet_on_stills read_ts.
Proof.
  unfold read_ts. apply quiet_bind; [apply quiet_get|]. intros w.
  destruct (ts w); [apply quiet_ret|apply quiet_raise].
Qed.

Lemma quiet_write_video (t : string) : quiet_on_stills (write_video t).
Proof. apply quiet_modify. intros w. unfold keeps. simpl. auto. Qed.

Lemma quiet_end_episode : quiet_on_stills end_episode.
Proof.
  unfold end_episode.
  apply quiet_bind; [apply quiet_split_recording|]. intros _.
  apply quiet_bind; [apply quiet_read_ts|]. intros t.
  apply quiet_bind; [apply quiet_concat_vids|]. intros _. apply quiet_ret.
Qed.

Lemma end_episode_returns (w w' : world) (c : control) :
  end_episode w = Ok c w' -> c = TickWait.
Proof.
  unfold end_episode, bind, ret. intros H.
  repeat case_match; congruence.
Qed.

(** *** One step of the loop *)

Definition settle (r : result control) : state :=
  match r with
  | Ok c w' => {| pc := c; env := w' |}
  | Raise e w' => leave e w'
  end.

Lemma step_resume (args : main_args) (s : state) (o : outcome) :
  monitoring s = true ->
  step args s o = settle (resume args (pc s) o (env s)).
Proof.
  unfold monitoring, step, settle. destruct (pc s); intros H; try reflexivity.
  discriminate.
Qed.

Lemma step_exited (args : main_args) (s : state) (o : outcome) :
  monitoring s = false -> step args s o = s.
Proof.
  unfold monitoring, step. destruct (pc s); intros H; try discriminate.
  reflexivity.
Qed.

Lemma run_exited (args : main_args) (s : state) (script : list outcome) :
  monitoring s = false -> run args s script = s.
Proof.
  intros H. induction script as [|o script IH]; simpl; [reflexivity|].
  rewrite (step_exited args s o H). exact IH.
Qed.

Lemma run_app (args : main_args) (s : state) (xs ys : list outcome) :
  run args s (xs ++ ys) = run args (run args s xs) ys.
Proof. unfold run. apply fold_left_app. Qed.

Lemma bind_blocking {A} (o : outcome) (k : unit -> M A) (w : world) :
  bind (blocking o) k w =
  match o_raise o with
  | Some e => Raise e (environment o w)
  | None => k tt (environment o w)
  end.
Proof. unfold bind, blocking. destruct (o_raise o); reflexivity. Qed.

(** The [elif] of line 141, reached with the detector off. *)
Lemma after_waits_off (args : main_args) (w : world) :
  motion_detected (output w) = false ->
  after_waits args w =
  if truthy (convert_vids args)
     && Qgtb (clock w - latest_motion (output w)) (convert_vids args)
  then match ts w with
       | None => Raise (UnboundLocalError "ts") w
       | Some t => Ok (Converting t) w
       end
  else Ok TickWait w.
Proof.
  intros Hd. unfold after_waits, bind, get. simpl. rewrite Hd.
  destruct (truthy _ && Qgtb _ _); [|reflexivity].
  unfold read_ts, bind, get, ret, raise. simpl. destruct (ts w); reflexivity.
Qed.

(** *** The counter invariant *)

Definition post (r : result control) : Prop :=
  match r with
  | Ok c w' => counted {| pc := c; env := w' |}
  | Raise _ w' => numbered (stills w')
  end.

Lemma post_settle (r : result control) : post r -> counted (settle r).
Proof.
  destruct r as [c w'|e w']; simpl; [auto|].
  intros Hn. unfold counted, leave. cbn [pc env].
  destruct (stop_all_same w') as (_ & _ & _ & _ & -> & _). auto.
Qed.

Lemma post_bind_quiet {A} (c : M A) (k : A -> M control) (w : world) :
  quiet_on_stills c ->
  numbered (stills w) ->
  (forall a w1, keeps w w1 -> post (k a w1)) ->
  post (bind c k w).
Proof.
  intros Hq Hn Hk. unfold bind. specialize (Hq w).
  destruct (c w) as [a w1|e w1].
  - apply Hk. exact Hq.
  - simpl. destruct Hq as (-> & _). exact Hn.
Qed.

Lemma while_motion_post (w : world) :
  numbered (stills w) ->
  img_counter w = length (stills w) ->
  post (while_motion w).
Proof.
  intros Hn Hc. unfold while_motion, bind, get. simpl.
  destruct (motion_detected (output w)).
  - unfold next_img_name, gen_img_name_next, bind, get, modify, ret. simpl.
    split; simpl; [exact Hn|]. split; [congruence|]. eauto.
  - pose proof (quiet_end_episode w) as Hq.
    destruct (end_episode w) as [c w'|e w'] eqn:He; simpl.
    + apply end_episode_returns in He. subst c.
      destruct Hq as (Hs & Hi & _). split; simpl; rewrite Hs; [exact Hn|congruence].
    + destruct Hq as (-> & _). exact Hn.
Qed.

Lemma after_waits_post (args : main_args) (w : world) :
  numbered (stills w) ->
  img_counter w = length (stills w) ->
  post (after_waits args w).
Proof.
  intros Hn Hc. unfold after_waits.
  unfold bind at 1. unfold get at 1.
  destruct (motion_detected (output w)).
  - apply post_bind_quiet; [apply quiet_split_recording|exact Hn|].
    intros _ w1 H1.
    apply post_bind_quiet.
    { apply quiet_modify. intros w0. unfold keeps. simpl. auto. }
    { destruct H1 as (-> & _). exact Hn. }
    intros _ w2 H2.
    apply post_bind_quiet; [apply quiet_read_ts| |].
    { destruct H2 as (-> & _), H1 as (-> & _). exact Hn. }
    intros t w3 H3.
    apply post_bind_quiet; [apply quiet_write_video| |].
    { destruct H3 as (-> & _), H2 as (-> & _), H1 as (-> & _). exact Hn. }
    intros _ w4 H4.
    pose proof (keeps_trans _ _ _ H1 (keeps_trans _ _ _ H2 (keeps_trans _ _ _ H3 H4)))
      as (Hs & Hi & _).
    apply while_motion_post; rewrite Hs; [exact Hn|congruence].
  - destruct (truthy _ && Qgtb _ _).
    + apply post_bind_quiet; [apply quiet_read_ts|exact Hn|].
      intros t w1 (Hs & Hi & _). simpl. split; simpl; rewrite Hs; [exact Hn|congruence].
    + simpl. split; [exact Hn|exact Hc].
Qed.

Lemma numbered_snoc (l : list string) (d : datetime) :
  numbered l -> numbered (l ++ [img_name d (S (length l))]).
Proof.
  intros Hn i name Hi.
  destruct (decide (i < length l)%nat) as [Hlt|Hge].
  - rewrite lookup_app_l in Hi by exact Hlt. apply Hn. exact Hi.
  - rewrite lookup_app_r in Hi by lia.
    destruct (i - length l)%nat as [|k] eqn:Hk; simpl in Hi; [|discriminate].
    injection Hi as <-. exists d. f_equal. lia.
Qed.

Lemma resume_post (args : main_args) (s : state) (o : outcome) :
  counted s -> monitoring s = true -> post (resume args (pc s) o (env s)).
Proof.
  destruct s as [c w]. unfold counted, monitoring. simpl.
  intros [Hn Hc] Hm.
  destruct c; simpl; try discriminate; rewrite bind_blocking || idtac.
  - (* warm-up *)
    destruct (o_raise o); simpl; [rewrite environment_stills; exact Hn|].
    split; simpl; rewrite environment_stills, ?environment_img_counter; assumption.
  - (* line 126 *)
    destruct (o_raise o); simpl; [rewrite environment_stills; exact Hn|].
    split; simpl; rewrite environment_stills, ?environment_img_counter; assumption.
  - (* line 127 *)
    destruct (o_raise o); simpl; [rewrite environment_stills; exact Hn|].
    apply after_waits_post;
      rewrite environment_stills, ?environment_img_counter; assumption.
  - (* capture *)
    unfold capture. unfold bind at 1. rewrite bind_blocking.
    destruct (o_raise o); simpl; [rewrite environment_stills; exact Hn|].
    destruct Hc as (Hc & d & ->).
    split; simpl; rewrite !environment_stills, ?environment_img_counter.
    + rewrite Hc. apply numbered_snoc. exact Hn.
    + rewrite length_app. simpl. lia.
  - (* line 136 *)
    destruct (o_raise o); simpl; [rewrite environment_stills; exact Hn|].
    apply while_motion_post;
      rewrite environment_stills, ?environment_img_counter; assumption.
  - (* the transcoder is done *)
    unfold convert_video, subprocess_run.
    unfold bind at 1. unfold bind at 1. rewrite bind_blocking.
    destruct (o_raise o); simpl; [rewrite environment_stills; exact Hn|].
    unfold bind, modify, ret. simpl.
    destruct (o_returncode o =? 0); simpl.
    + match goal with |- context [os_remove ?p ?w0] =>
        pose proof (quiet_os_remove p w0) as Hq;
        destruct (os_remove p w0) as [u w'|e w'] end;
        destruct Hq as (Hs & Hi & _); simpl in Hs, Hi;
        rewrite environment_stills in Hs; rewrite ?environment_img_counter in Hi.
      * split; simpl; rewrite Hs; [exact Hn|congruence].
      * simpl. rewrite Hs. exact Hn.
    + split; simpl; rewrite environment_stills, ?environment_img_counter; assumption.
Qed.

Lemma step_counted (args : main_args) (s : state) (o : outcome) :
  counted s -> counted (step args s o).
Proof.
  intros Hc. destruct (monitoring s) eqn:Hm.
  - rewrite (step_resume args s o Hm). apply post_settle.
    apply resume_post; assumption.
  - rewrite (step_exited args s o Hm). exact Hc.
Qed.

Lemma run_counted (args : main_args) (s : state) (script : list outcome) :
  counted s -> counted (run args s script).
Proof.
  revert s. induction script as [|o script IH]; intros s Hc; simpl; [exact Hc|].
  apply IH. apply step_counted. exact Hc.
Qed.

Lemma start_counted (dir : gmap string (list byte)) (now : Q) (d : datetime) :
  counted (start dir now d).
Proof.
  split; simpl; [|reflexivity]. intros i name Hi. destruct i; discriminate.
Qed.

(** *** No episode without a trigger *)

(** The detector is off with its default thresholds, [ts] was never
    assigned, no still was taken and port 1 records to the ring. *)
Definition idle_world (w : world) : Prop :=
  motion_detected (output w) = false /\
  motion_magnitude (output w) = motion_magnitude Motion.default /\
  motion_vector_count (output w) = motion_vector_count Motion.default /\
  ts w = None /\ stills w = [] /\ port1 w = ToStream.

Definition idle (s : state) : Prop :=
  idle_world (env s) /\
  (pc s = TickWait \/ pc s = MotionWait \/ exists r, pc s = Exited r).

Definition frames_quiet (o : outcome) : bool :=
  forallb (fun ft => negb (triggers Motion.default (fst ft))) (o_motion o).

Lemma idle_environment_output (o : outcome) (w : world) :
  idle_world w -> frames_quiet o = true ->
  output (environment o w) = output w.
Proof.
  intros (Hd & Hm & Hc & _) Hq. rewrite environment_output.
  apply (analyze_all_idle Motion.default); assumption.
Qed.

Lemma idle_environment (o : outcome) (w : world) :
  idle_world w -> frames_quiet o = true -> idle_world (environment o w).
Proof.
  intros Hi Hq. pose proof (idle_environment_output o w Hi Hq) as Ho.
  destruct Hi as (Hd & Hm & Hc & Ht & Hs & Hp).
  unfold idle_world.
  rewrite Ho, environment_ts, environment_stills, environment_port1. auto 10.
Qed.

Lemma idle_stop_all (w : world) : idle_world w -> idle_world (stop_all w).
Proof.
  intros (Hd & Hm & Hc & Ht & Hs & Hp). unfold idle_world.
  destruct (stop_all_same w) as (_ & -> & _ & -> & -> & _ & ->). auto 10.
Qed.

Lemma idle_step (args : main_args) (s : state) (o : outcome) :
  idle s -> frames_quiet o = true -> idle (step args s o).
Proof.
  destruct s as [c w]. intros [Hw Hpc] Hq. simpl in Hw, Hpc.
  pose proof (idle_environment o w Hw Hq) as Hw1.
  destruct Hpc as [->|[->|[r ->]]].
  - unfold step. simpl. rewrite bind_blocking.
    destruct (o_raise o); simpl.
    + split; [apply idle_stop_all; exact Hw1|]. simpl. eauto.
    + split; [exact Hw1|]. simpl. auto.
  - unfold step. simpl. rewrite bind_blocking.
    destruct (o_raise o); simpl.
    + split; [apply idle_stop_all; exact Hw1|]. simpl. eauto.
    + rewrite after_waits_off by apply Hw1.
      destruct Hw1 as (Hd & Hm & Hc & Ht & Hs & Hp).
      rewrite Ht.
      destruct (truthy _ && Qgtb _ _); simpl.
      * split; [apply idle_stop_all; unfold idle_world; auto 10|]. simpl. eauto.
      * split; [unfold idle_world; auto 10|]. simpl. auto.
  - unfold step. simpl. split; [exact Hw|]. simpl. eauto.
Qed.

Lemma idle_run (args : main_args) (s : state) (script : list outcome) :
  idle s -> no_trigger Motion.default script = true -> idle (run args s script).
Proof.
  revert s. induction script as [|o script IH]; intros s Hi; simpl; [auto|].
  rewrite andb_true_iff. intros [Ho Hs]. apply IH; [|exact Hs].
  apply idle_step; assumption.
Qed.

End LoopFacts.

Module PicamClaims.

Import Motion MotionFacts Names NameFacts Picam Scenario PicamFacts LoopFacts.
Local Open Scope picam_scope.

#[local] Opaque environment stop_all.

(** C5. With [after.h264] present and distinct from the episode's file,
    [concat_vids] returns; afterwards the episode's file holds its former
    bytes (none if it did not exist) followed by the bytes of
    [after.h264], so its length is the sum of the two lengths;
    [after.h264] is gone and no other file has changed. The name of an
    episode's file, made from a timestamp, is never [after.h264]. *)
Theorem concat_vids_appends (t : string) (w : world) (after : list byte) :
  h264 t <> "after.h264"%string ->
  files w !! "after.h264"%string = Some after ->
  exists w',
    concat_vids t w = Ok tt w' /\
    files w' !! h264 t = Some (contents w (h264 t) ++ after) /\
    length (contents w' (h264 t)) =
      (length (contents w (h264 t)) + length after)%nat /\
    files w' !! "after.h264"%string = None /\
    (forall p, p <> h264 t -> p <> "after.h264"%string ->
               files w' !! p = files w !! p) /\
    (forall d, h264 (format_ts d) <> "after.h264"%string).
Proof.
  intros Hne Ha. eexists. split; [apply concat_vids_present; eassumption|].
  assert (Hl : files (set_files (delete "after.h264"%string
                        (<[h264 t := contents w (h264 t) ++ after]> (files w))) w)
               !! h264 t = Some (contents w (h264 t) ++ after)).
  { simpl. rewrite lookup_delete_ne by congruence. apply lookup_insert_eq. }
  split; [exact Hl|]. split.
  { unfold contents at 1. rewrite Hl. apply length_app. }
  split; [simpl; apply lookup_delete_eq|].
  split; [|apply format_ts_not_after].
  intros p Hp1 Hp2. simpl.
  rewrite lookup_delete_ne, lookup_insert_ne by congruence. reflexivity.
Qed.

Definition two_files : world :=
  set_files (<["after.h264"%string := [x03; x04; x05]%byte]>
               (<["2017-03-05-120003.h264"%string := [x01; x02]%byte]> ∅))
            (env (start ∅ 0 noon)).

Lemma concat_vids_appends_witness :
  exists w',
    concat_vids "2017-03-05-120003" two_files = Ok tt w' /\
    files w' !! "2017-03-05-120003.h264"%string
      = Some [x01; x02; x03; x04; x05]%byte /\
    files w' !! "after.h264"%string = None.
Proof.
  destruct (concat_vids_appends "2017-03-05-120003" two_files [x03; x04; x05]%byte)
    as (w' & Hrun & Hfile & _ & Hgone & _).
  - vm_compute. discriminate.
  - vm_compute. reflexivity.
  - exists w'. split; [exact Hrun|]. split; [exact Hfile|exact Hgone].
Defined.

(** C8 (as the code has it). The name generator is created once, before
    the loop, and its counter is never reset: in every run of [main] the
    stills are named [<timestamp>-<counter:03d>.jpg] with the counter of
    the [i]-th still of the process equal to [i] (counting from 1), and a
    capture that is pending carries the number of stills taken so far
    plus one, whichever episode it belongs to. *)
Theorem stills_numbered_from_start (args : main_args)
    (dir : gmap string (list byte)) (now : Q) (d : datetime)
    (script : list outcome) :
  let s := run args (start dir now d) script in
  (forall (i : nat) (name : string),
      stills (env s) !! i = Some name ->
      exists d', name = format_ts d' +:+ "-" +:+ zfill 3 (N.of_nat (S i)) +:+ ".jpg") /\
  (forall name, pc s = Capturing name ->
      exists d', name = img_name d' (S (length (stills (env s))))) /\
  (forall (counter : nat) (d' : datetime),
      gen_img_name_next counter d' = (S counter, img_name d' (S counter))).
Proof.
  intros s.
  assert (Hc : counted s) by (apply run_counted, start_counted).
  destruct Hc as [Hn Hpc].
  split; [exact Hn|]. split; [|reflexivity].
  intros name Hname. rewrite Hname in Hpc.
  destruct Hpc as (Hc & d' & ->). exists d'. rewrite Hc. reflexivity.
Qed.

(** C8 as stated fails: the first still of the second episode of
    [second_episode] carries the counter value 2. *)
Lemma second_episode_starts_at_two :
  stills (env (run default_args (start ∅ 0 noon) one_episode))
    = ["2017-03-05-120003-001.jpg"%string] /\
  pc (run default_args (start ∅ 0 noon) one_episode) = TickWait /\
  pc (run default_args (start ∅ 0 noon) second_episode)
    = Capturing "2017-03-05-120020-002.jpg" /\
  ~ (exists d', "2017-03-05-120020-002.jpg"%string = img_name d' 1).
Proof.
  split; [vm_compute; reflexivity|].
  split; [vm_compute; reflexivity|].
  split; [vm_compute; reflexivity|].
  intros [d' Hd'].
  change (img_name d' 1) with (format_ts d' +:+ "-001.jpg")%string in Hd'.
  assert (Hlen : String.length (format_ts d') = 17%nat).
  { pose proof (f_equal String.length Hd') as Hl.
    rewrite string_length_app in Hl. simpl in Hl. lia. }
  pose proof (f_equal (String.get 20) Hd') as Hg.
  rewrite <- Hlen in Hg at 2.
  change (S (S (S (String.length (format_ts d')))))
    with (3 + String.length (format_ts d'))%nat in Hg.
  rewrite <- append_correct2 in Hg. discriminate Hg.
Qed.

(** C9. [main] first waits in [wait_recording(2)]; when that call
    returns, [motion_detected] is set to false whatever frames were
    analysed meanwhile, and only then does the loop start. If no frame
    triggers after the warm-up, then at every later point the detector is
    off, [ts] was never assigned, no still was taken, port 1 still
    records to the ring and no capture is pending: no episode opens. *)
Theorem warmup_discards_motion (args : main_args)
    (dir : gmap string (list byte)) (now : Q) (d : datetime)
    (o : outcome) (script : list outcome) :
  o_raise o = None ->
  no_trigger Motion.default script = true ->
  let s1 := step args (start dir now d) o in
  let s := run args s1 script in
  pending args (pc (start dir now d)) = Some (wait_recording 2 1) /\
  pc s1 = TickWait /\
  motion_detected (output (env s1)) = false /\
  motion_detected (output (env s)) = false /\
  ts (env s) = None /\ stills (env s) = [] /\ port1 (env s) = ToStream /\
  (forall name, pc s <> Capturing name).
Proof.
  intros Hret Hquiet s1 s.
  assert (Hs1 : s1 = {| pc := TickWait;
                        env := set_output
                                 (set_motion_detected false
                                    (output (environment o (env (start dir now d)))))
                                 (environment o (env (start dir now d))) |}).
  { unfold s1, step. simpl. rewrite bind_blocking, Hret. reflexivity. }
  assert (Hidle1 : idle s1).
  { rewrite Hs1. split; simpl; [|auto].
    unfold idle_world. simpl.
    rewrite environment_ts, environment_stills, environment_port1.
    destruct (analyze_all_settings Motion.default (o_motion o)) as (Hm & Hc & _).
    rewrite environment_output. simpl. auto 10. }
  pose proof (idle_run args s1 script Hidle1 Hquiet) as [Hw Hpc].
  fold s in Hw, Hpc. destruct Hw as (Hd & _ & _ & Ht & Hs & Hp).
  split; [reflexivity|]. split; [rewrite Hs1; reflexivity|].
  split; [rewrite Hs1; reflexivity|].
  repeat (split; [assumption|]).
  intros name Hname. rewrite Hname in Hpc.
  destruct Hpc as [H|[H|[r H]]]; discriminate.
Qed.

Lemma warmup_discards_motion_witness :
  let s := run default_args
             (step default_args (start ∅ 0 noon) (quiet 2 2 [(busy_frame, 1%Q)]))
             transient_only in
  motion_detected (output (env s)) = false /\ ts (env s) = None.
Proof.
  intros s.
  destruct (warmup_discards_motion default_args ∅ 0 noon
              (quiet 2 2 [(busy_frame, 1%Q)]) transient_only)
    as (_ & _ & _ & Hd & Ht & _).
  - reflexivity.
  - vm_compute. reflexivity.
  - split; [exact Hd|exact Ht].
Defined.

(** C4 (as the code has it). The [try] statement of [main] catches
    [KeyboardInterrupt] only. When the code between two blocking calls
    raises, the [finally] block stops the recording on splitter ports 1
    and 2 and [main] is over, with the exception unless it is
    [KeyboardInterrupt]; nothing that happens later is processed. In
    particular, when motion ends and [after.h264] is missing,
    [concat_vids] raises [FileNotFoundError] and [main] ends with it. *)
Theorem error_ends_monitoring (args : main_args) (s : state) (o : outcome) :
  monitoring s = true ->
  (forall e w', resume args (pc s) o (env s) = Raise e w' ->
     step args s o =
       {| pc := Exited (if is_KeyboardInterrupt e then None else Some e);
          env := stop_all w' |} /\
     ~ In 1%nat (recording (stop_all w')) /\
     ~ In 2%nat (recording (stop_all w')) /\
     (forall script, run args (step args s o) script = step args s o)) /\
  (forall c w', resume args (pc s) o (env s) = Ok c w' ->
     step args s o = {| pc := c; env := w' |}) /\
  (forall d,
     pc s = StillWait -> o_raise o = None ->
     motion_detected (output (environment o (env s))) = false ->
     ts (env s) = Some (format_ts d) ->
     files (environment o (env s)) !! "after.h264"%string = None ->
     pc (step args s o) = Exited (Some (FileNotFoundError "after.h264"))).
Proof.
  intros Hm. rewrite (step_resume args s o Hm).
  split; [|split].
  - intros e w' Hr. rewrite Hr. simpl. split; [reflexivity|].
    split; [intros Hin; apply stop_all_recording in Hin; tauto|].
    split; [intros Hin; apply stop_all_recording in Hin; tauto|].
    intros script. apply run_exited. reflexivity.
  - intros c w' Hr. rewrite Hr. reflexivity.
  - intros d Hpc Hret Hoff Hts Hmiss. rewrite Hpc. simpl.
    rewrite bind_blocking, Hret.
    unfold while_motion, bind at 1, get at 1. rewrite Hoff.
    unfold end_episode, split_recording, read_ts, bind, get, modify, ret. simpl.
    rewrite environment_ts, Hts.
    destruct (concat_vids_missing (format_ts d)
                (set_port1 ToStream (environment o (env s)))
                (format_ts_not_after d) Hmiss) as [w' Hw'].
    unfold bind in Hw'. rewrite Hw'. reflexivity.
Qed.

Definition episode_open : state :=
  run default_args (start ∅ 0 noon) (firstn 4 lost_after).

Lemma error_ends_monitoring_witness :
  pc (step default_args episode_open
        (unlinking 9 9 [(still_frame, 9%Q)] ["after.h264"%string]))
    = Exited (Some (FileNotFoundError "after.h264")).
Proof.
  destruct (error_ends_monitoring default_args episode_open
              (unlinking 9 9 [(still_frame, 9%Q)] ["after.h264"%string]))
    as (_ & _ & Hmiss).
  - vm_compute. reflexivity.
  - apply (Hmiss (at_second 3)); vm_compute; reflexivity.
Defined.

(** C4 as stated fails: in [lost_after] every blocking call returns, the
    episode ends with [FileNotFoundError] out of [concat_vids], [main] is
    over, and the motion that follows opens no episode. *)
Lemma lost_after_file_ends_main :
  all_return (lost_after ++ second_episode) = true /\
  pc (run default_args (start ∅ 0 noon) lost_after)
    = Exited (Some (FileNotFoundError "after.h264")) /\
  monitoring (run default_args (start ∅ 0 noon) (lost_after ++ second_episode))
    = false /\
  stills (env (run default_args (start ∅ 0 noon) (lost_after ++ second_episode)))
    = stills (env (run default_args (start ∅ 0 noon) lost_after)).
Proof.
  split; [vm_compute; reflexivity|].
  split; [vm_compute; reflexivity|].
  split; vm_compute; reflexivity.
Qed.

Lemma convert_video_returned (t : string) (o : outcome) (w : world) :
  o_raise o = None ->
  convert_video t o w =
  let w1 := set_procs (procs (environment o w)
                         ++ [(avconv_cmd (h264 t) (mp4 t), o_returncode o)])
                      (environment o w) in
  if o_returncode o =? 0 then os_remove (h264 t) w1 else Ok tt w1.
Proof.
  intros Hret. unfold convert_video, subprocess_run.
  unfold bind at 1. rewrite bind_blocking, Hret.
  unfold bind, modify, ret. simpl.
  destruct (o_returncode o =? 0); reflexivity.
Qed.

(** C6 (as the code has it). When [subprocess.run] returns,
    [convert_video] has run the transcoder once; on a non-zero exit code
    it returns without raising and without touching any file (the source
    stays, the output is what the transcoder left); on exit code zero it
    removes the source; so the source is gone afterwards exactly when the
    exit code is zero. Nothing records the failure: after a failed
    conversion, the next tick that finds the detector off, with
    [convert_vids] set and more than [convert_vids] seconds since
    [latest_motion], calls [convert_video] again with the same [ts], that
    is, runs the same command again. *)
Theorem convert_video_exit_code (args : main_args) (t : string)
    (o o1 o2 : outcome) (w : world) :
  o_raise o = None ->
  let cmd := avconv_cmd (h264 t) (mp4 t) in
  let w1 := set_procs (procs (environment o w) ++ [(cmd, o_returncode o)])
                      (environment o w) in
  (o_returncode o <> 0 ->
     convert_video t o w = Ok tt w1 /\ files w1 = files (environment o w)) /\
  (o_returncode o = 0 -> is_Some (files (environment o w) !! h264 t) ->
     convert_video t o w = Ok tt (set_files (delete (h264 t) (files w1)) w1)) /\
  (forall w', convert_video t o w = Ok tt w' ->
     is_Some (files (environment o w) !! h264 t) ->
     (files w' !! h264 t = None <-> o_returncode o = 0)) /\
  (o_returncode o <> 0 -> o_raise o1 = None -> o_raise o2 = None ->
   ts w = Some t ->
   let w3 := environment o2 (environment o1 w1) in
   motion_detected (output w3) = false ->
   truthy (convert_vids args) = true ->
   (convert_vids args < clock w3 - latest_motion (output w3))%Q ->
   let s3 := run args {| pc := Converting t; env := w |} [o; o1; o2] in
   s3 = {| pc := Converting t; env := w3 |} /\
   pending args (pc s3) = Some (run_process cmd)).
Proof.
  intros Hret cmd w1.
  pose proof (convert_video_returned t o w Hret) as Hconv.
  cbv zeta in Hconv. fold cmd in Hconv. fold w1 in Hconv.
  assert (Hfail : o_returncode o <> 0 -> convert_video t o w = Ok tt w1).
  { intros Hrc. rewrite Hconv. apply Z.eqb_neq in Hrc. rewrite Hrc. reflexivity. }
  split; [intros Hrc; split; [apply Hfail; exact Hrc|reflexivity]|].
  split.
  { intros Hrc Hsrc. rewrite Hconv, Hrc.
    exact (os_remove_present (h264 t) w1 Hsrc). }
  split.
  { intros w' Hw' [data Hsrc]. destruct (Z.eq_dec (o_returncode o) 0) as [Hrc|Hrc].
    - rewrite Hconv, Hrc in Hw'. simpl in Hw'.
      rewrite os_remove_present in Hw' by (simpl; eauto).
      injection Hw' as <-. simpl. rewrite lookup_delete_eq. tauto.
    - rewrite (Hfail Hrc) in Hw'. injection Hw' as <-. simpl.
      rewrite Hsrc. split; [discriminate|contradiction]. }
  intros Hrc Hret1 Hret2 Hts w3 Hoff Hcv Hquiet s3.
  assert (Hs3 : s3 = {| pc := Converting t; env := w3 |}).
  { unfold s3, run. simpl. unfold step at 3. simpl.
    unfold bind at 1. rewrite (Hfail Hrc). simpl.
    unfold step at 2. simpl. rewrite bind_blocking, Hret1. simpl.
    unfold step. simpl. rewrite bind_blocking, Hret2.
    fold w1. fold w3.
    rewrite (after_waits_off args w3 Hoff), Hcv.
    apply Qgtb_true in Hquiet. rewrite Hquiet. simpl.
    unfold w3. rewrite !environment_ts. simpl. rewrite environment_ts, Hts.
    reflexivity. }
  split; [exact Hs3|]. rewrite Hs3. reflexivity.
Qed.

Definition converting : state :=
  run script_args (start ∅ 0 noon) (one_episode ++ [quiet 11 11 []; quiet 11 11 []]).

Lemma convert_video_exit_code_witness :
  pc (run script_args {| pc := Converting "2017-03-05-120003"; env := env converting |}
        [failing 12 12; quiet 13 13 []; quiet 13 13 []])
    = Converting "2017-03-05-120003".
Proof.
  destruct (convert_video_exit_code script_args "2017-03-05-120003"
              (failing 12 12) (quiet 13 13 []) (quiet 13 13 []) (env converting))
    as (_ & _ & _ & Hagain).
  - reflexivity.
  - destruct Hagain as [Hs3 _].
    + vm_compute. discriminate.
    + reflexivity.
    + reflexivity.
    + vm_compute. reflexivity.
    + vm_compute. reflexivity.
    + vm_compute. reflexivity.
    + vm_compute. reflexivity.
    + rewrite Hs3. reflexivity.
Defined.

(** C6 as stated fails: in [failed_conversions] the transcoder exits with
    code 1 and the loop runs the same command again two ticks later. *)
Lemma failed_conversion_is_retried :
  procs (env (run script_args (start ∅ 0 noon) failed_conversions))
    = [(avconv_cmd "2017-03-05-120003.h264" "2017-03-05-120003.mp4", 1);
       (avconv_cmd "2017-03-05-120003.h264" "2017-03-05-120003.mp4", 1)] /\
  ~ no_retry (procs (env (run script_args (start ∅ 0 noon) failed_conversions))).
Proof.
  assert (Hlog : procs (env (run script_args (start ∅ 0 noon) failed_conversions))
    = [(avconv_cmd "2017-03-05-120003.h264" "2017-03-05-120003.mp4", 1);
       (avconv_cmd "2017-03-05-120003.h264" "2017-03-05-120003.mp4", 1)])
    by (vm_compute; reflexivity).
  split; [exact Hlog|].
  rewrite Hlog. intros Hno.
  apply (Hno 0%nat 1%nat
           (avconv_cmd "2017-03-05-120003.h264" "2017-03-05-120003.mp4") 1 1).
  - lia.
  - reflexivity.
  - discriminate.
  - reflexivity.
Qed.

(** C7 (the code at the failing input). With [convert_vids] set, when the
    first pass through the loop finds the detector off and more than
    [convert_vids] seconds have passed since [latest_motion], line 142
    reads [ts] before any episode has assigned it: [UnboundLocalError]
    is raised, no transcoder was run, and [main] is over. *)
Theorem first_quiet_tick_raises (args : main_args)
    (dir : gmap string (list byte)) (now : Q) (d : datetime)
    (o0 o1 o2 : outcome) :
  all_return [o0; o1; o2] = true ->
  no_trigger Motion.default [o1; o2] = true ->
  truthy (convert_vids args) = true ->
  (convert_vids args
     < o_clock o2 - latest_motion (analyze_all Motion.default (o_motion o0)))%Q ->
  let s := run args (start dir now d) [o0; o1; o2] in
  pc s = Exited (Some (UnboundLocalError "ts")) /\
  procs (env s) = [] /\
  (forall script, run args s script = s).
Proof.
  intros Hall Hquiet Hcv Hlate s.
  unfold all_return in Hall. simpl in Hall.
  destruct (o_raise o0) eqn:Hr0; [discriminate|].
  destruct (o_raise o1) eqn:Hr1; [discriminate|].
  destruct (o_raise o2) eqn:Hr2; [discriminate|].
  unfold no_trigger in Hquiet. simpl in Hquiet.
  rewrite andb_true_r in Hquiet. apply andb_true_iff in Hquiet as [Hq1 Hq2].
  pose (w0 := env (start dir now d)). cbv [start env] in w0.
  pose (w1 := set_output (set_motion_detected false (output (environment o0 w0)))
                        (environment o0 w0)).
  assert (Hi1 : idle_world w1).
  { unfold idle_world, w1. simpl.
    rewrite environment_ts, environment_stills, environment_port1, environment_output.
    destruct (analyze_all_settings Motion.default (o_motion o0)) as (Hm & Hc & _).
    simpl. auto 10. }
  pose proof (idle_environment o1 w1 Hi1 Hq1) as Hi2.
  pose proof (idle_environment o2 _ Hi2 Hq2) as Hi3.
  assert (Hout : output (environment o2 (environment o1 w1)) = output w1).
  { rewrite (idle_environment_output o2 _ Hi2 Hq2).
    apply (idle_environment_output o1 w1 Hi1 Hq1). }
  assert (Hs : s = leave (UnboundLocalError "ts") (environment o2 (environment o1 w1))).
  { unfold s, run. simpl. unfold step at 3. simpl.
    rewrite bind_blocking, Hr0. unfold bind, modify, ret. simpl.
    unfold step at 2. simpl. rewrite bind_blocking, Hr1. simpl.
    unfold step. simpl. rewrite bind_blocking, Hr2.
    fold w0. fold w1.
    rewrite after_waits_off by apply Hi3.
    rewrite Hcv, Hout.
    destruct (environment_clock o2 (environment o1 w1)) as [-> _].
    assert (Hg : Qgtb (o_clock o2 - latest_motion (output w1)) (convert_vids args) = true).
    { apply Qgtb_true. unfold w1. simpl. rewrite environment_output. exact Hlate. }
    rewrite Hg. simpl.
    destruct Hi3 as (_ & _ & _ & -> & _). reflexivity. }
  rewrite Hs. split; [reflexivity|]. split.
  - unfold leave. cbn [env].
    destruct (stop_all_same (environment o2 (environment o1 w1)))
      as (_ & _ & _ & _ & _ & -> & _).
    rewrite !environment_procs. unfold w1. simpl. rewrite environment_procs. reflexivity.
  - intros script. apply run_exited. reflexivity.
Qed.

Lemma first_quiet_tick_raises_witness :
  pc (run script_args (start ∅ 0 noon) [quiet 2 2 []; quiet 3 3 []; quiet 3 3 []])
    = Exited (Some (UnboundLocalError "ts")).
Proof.
  destruct (first_quiet_tick_raises script_args ∅ 0 noon
              (quiet 2 2 []) (quiet 3 3 []) (quiet 3 3 [])) as (Hpc & _).
  - reflexivity.
  - reflexivity.
  - reflexivity.
  - vm_compute. reflexivity.
  - exact Hpc.
Defined.

End PicamClaims.

(** ** Further properties of [DetectMotion] *)

Module MotionExtra.

Import Motion MotionFacts.

(** [range(start, stop, step)] for a positive step. *)
Definition py_range (start stop step : Z) : list Z :=
  map (fun k => start + step * Z.of_nat k)
      (seq 0 (Z.to_nat ((stop - start + step - 1) / step))).

(** The generator expression of lines 39-41 of [show_motion_analysis]:
    for each threshold of [range(0, 255, 10)], the number of magnitudes
    above it, with the threshold. *)
Definition motion_analysis_counts (a : list (list Z)) : list (Z * Z) :=
  map (fun x => (count_gt a x, x)) (py_range 0 255 10).

(** The text joined on line 39: one line ["{count} greater than {threshold}"]
    per threshold. *)
Definition motion_analysis_lines (a : list (list Z)) : list string :=
  map (fun cx => Names.decimal (Z.to_N (fst cx)) +:+ " greater than "
                 +:+ Names.decimal (Z.to_N (snd cx)))
      (motion_analysis_counts a).

Definition motion_analysis (a : list (list Z)) : string :=
  String.concat (String "010" EmptyString) (motion_analysis_lines a).

(** Both components of a vector fit a signed byte, as in picamera's motion
    data. *)
Definition int8_vector (v : motion_vector) : Prop :=
  -128 <= mv_x v <= 127 /\ -128 <= mv_y v <= 127.

Lemma count_gt_bounds (l : list (list Z)) (threshold : Z) :
  0 <= count_gt l threshold <= Z.of_nat (length (concat l)).
Proof.
  unfold count_gt. split; [lia|].
  apply Nat2Z.inj_le. apply List.filter_length_le.
Qed.

Lemma magnitudes_size (a : frame) :
  length (concat (magnitudes a)) = length (concat a).
Proof.
  unfold magnitudes. induction a as [|row a IH]; simpl; [reflexivity|].
  rewrite !length_app, IH, length_map. reflexivity.
Qed.

Lemma count_gt_none (l : list (list Z)) (threshold : Z) :
  (forall m, In m (concat l) -> m <= threshold) -> count_gt l threshold = 0.
Proof.
  intros Hall. unfold count_gt.
  replace (List.filter _ (concat l)) with (@nil Z); [reflexivity|].
  symmetry. induction (concat l) as [|m ms IH]; simpl; [reflexivity|].
  assert (Hm : (threshold <? m) = false)
    by (apply Z.ltb_ge, Hall; left; reflexivity).
  rewrite Hm. apply IH. intros m' Hin. apply Hall. right. exact Hin.
Qed.

Lemma count_gt_antitone (l : list (list Z)) (lo hi : Z) :
  lo <= hi -> count_gt l hi <= count_gt l lo.
Proof.
  intros Hle. unfold count_gt. apply Nat2Z.inj_le.
  induction (concat l) as [|m ms IH]; simpl; [lia|].
  destruct (hi <? m) eqn:Hhi.
  - assert (Hlo : (lo <? m) = true) by (apply Z.ltb_lt; apply Z.ltb_lt in Hhi; lia).
    rewrite Hlo. simpl. lia.
  - destruct (lo <? m); simpl; lia.
Qed.

Lemma in_magnitudes (a : frame) (m : Z) :
  In m (concat (magnitudes a)) -> exists v, In v (concat a) /\ m = magnitude v.
Proof.
  unfold magnitudes. induction a as [|row a IH]; simpl; [tauto|].
  rewrite in_app_iff. intros [Hin|Hin].
  - apply in_map_iff in Hin as (v & <- & Hv). exists v. split; [|reflexivity].
    apply in_app_iff. left. exact Hv.
  - destruct (IH Hin) as (v & Hv & ->). exists v. split; [|reflexivity].
    apply in_app_iff. right. exact Hv.
Qed.

(** X1. For vectors whose components fit a signed byte the clip at 255
    never applies: the magnitude is the integer square root itself and is
    at most 181; so a detector whose [motion_magnitude] is 181 or more
    (with a non-negative [motion_vector_count]) is triggered by no frame
    of such vectors. *)
Theorem magnitude_int8 (self : DetectMotion) (a : frame) :
  (forall v, In v (concat a) -> int8_vector v) ->
  (forall v, In v (concat a) ->
     magnitude v = Z.sqrt (mv_x v * mv_x v + mv_y v * mv_y v) /\
     magnitude v <= 181) /\
  (181 <= motion_magnitude self -> 0 <= motion_vector_count self ->
   triggers self a = false /\
   forall now, latest_motion (analyze self a now) = latest_motion self).
Proof.
  intros Hint.
  assert (Hmag : forall v, In v (concat a) ->
     magnitude v = Z.sqrt (mv_x v * mv_x v + mv_y v * mv_y v) /\
     magnitude v <= 181).
  { intros v Hv. destruct (Hint v Hv) as [Hx Hy].
    rewrite magnitude_clipped.
    assert (Hs : mv_x v * mv_x v + mv_y v * mv_y v <= 32768) by nia.
    assert (Hq : Z.sqrt (mv_x v * mv_x v + mv_y v * mv_y v) <= 181).
    { change 181 with (Z.sqrt 32768). apply Z.sqrt_le_mono. exact Hs. }
    split; lia. }
  split; [exact Hmag|].
  intros Hthr Hcount.
  assert (Hnt : triggers self a = false).
  { apply triggers_false. rewrite count_gt_none; [exact Hcount|].
    intros m Hm. apply in_magnitudes in Hm as (v & Hv & ->).
    destruct (Hmag v Hv). lia. }
  split; [exact Hnt|]. intros now. apply analyze_latest_same. exact Hnt.
Qed.

Lemma magnitude_int8_witness :
  magnitude (MotionVector (-128) (-128) 0) = 181.
Proof.
  destruct (magnitude_int8 default [[MotionVector (-128) (-128) 0]]) as [Hmag _].
  - intros v [<-|[]]. unfold int8_vector. simpl. lia.
  - destruct (Hmag (MotionVector (-128) (-128) 0)) as [Heq _].
    + left. reflexivity.
    + rewrite Heq. reflexivity.
Defined.

(** X2. Thresholds that switch the detector off: with [motion_magnitude]
    at 255 or more no vector is ever counted (so a non-negative
    [motion_vector_count] is not exceeded), and with
    [motion_vector_count] at or above the number of vectors of the frame
    the count cannot exceed it; in both cases the frame does not trigger,
    the timestamp is unchanged and a detector that is off is left as it
    is. *)
Theorem thresholds_out_of_reach (self : DetectMotion) (a : frame) (now : Q) :
  (255 <= motion_magnitude self /\ 0 <= motion_vector_count self) \/
  Z.of_nat (length (concat a)) <= motion_vector_count self ->
  triggers self a = false /\
  latest_motion (analyze self a now) = latest_motion self /\
  (motion_detected self = false -> analyze self a now = self) /\
  (255 <= motion_magnitude self ->
   count_gt (magnitudes a) (motion_magnitude self) = 0).
Proof.
  intros Hcase.
  assert (Hzero : 255 <= motion_magnitude self ->
                  count_gt (magnitudes a) (motion_magnitude self) = 0).
  { intros Hm. apply count_gt_none. intros m Hin.
    apply in_magnitudes in Hin as (v & _ & ->).
    pose proof (magnitude_uint8 v). lia. }
  assert (Hnt : triggers self a = false).
  { apply triggers_false. destruct Hcase as [[Hm H0]|Hc].
    - rewrite (Hzero Hm). exact H0.
    - pose proof (count_gt_bounds (magnitudes a) (motion_magnitude self)) as Hb.
      rewrite magnitudes_size in Hb. lia. }
  split; [exact Hnt|]. split; [apply analyze_latest_same; exact Hnt|].
  split; [|exact Hzero].
  intros Hoff. unfold analyze, timed_out. rewrite Hnt, Hoff. reflexivity.
Qed.

Lemma thresholds_out_of_reach_witness :
  triggers (init 5 255 20) [repeat (MotionVector 127 127 0) 40] = false /\
  triggers (init 5 30 20) [] = false.
Proof.
  split.
  - destruct (thresholds_out_of_reach (init 5 255 20)
                [repeat (MotionVector 127 127 0) 40] 1) as [Hnt _].
    + left. simpl. lia.
    + exact Hnt.
  - destruct (thresholds_out_of_reach (init 5 30 20) [] 1) as [Hnt _].
    + right. simpl. lia.
    + exact Hnt.
Defined.

(** X3. A negative [motion_vector_count] is exceeded by every count, the
    count 0 of an empty frame included: every call of [analyze] then sets
    [motion_detected] and moves [latest_motion] to the current time, so
    the detector never clears. *)
Theorem negative_count_always_triggers (self : DetectMotion)
    (fs : list (frame * Q)) (a : frame) (now : Q) :
  motion_vector_count self < 0 ->
  triggers self a = true /\
  motion_detected (analyze_all self (fs ++ [(a, now)])) = true /\
  latest_motion (analyze_all self (fs ++ [(a, now)])) = now.
Proof.
  intros Hneg.
  assert (Hall : forall s b, motion_vector_count s < 0 -> triggers s b = true).
  { intros s b Hs. apply triggers_true.
    pose proof (count_gt_bounds (magnitudes b) (motion_magnitude s)). lia. }
  split; [apply Hall; exact Hneg|].
  rewrite analyze_all_app. simpl.
  destruct (analyze_all_settings self fs) as (_ & Hc & _).
  rewrite analyze_triggered by (apply Hall; rewrite Hc; exact Hneg).
  split; reflexivity.
Qed.

Lemma negative_count_always_triggers_witness :
  motion_detected (analyze (init 5 30 (-1)) [] 7) = true.
Proof.
  destruct (negative_count_always_triggers (init 5 30 (-1)) [] [] 7) as (_ & Hd & _).
  - simpl. lia.
  - exact Hd.
Defined.

(** X4. Lowering either threshold keeps a frame triggering: a frame that
    triggers a detector also triggers every detector whose
    [motion_magnitude] and [motion_vector_count] are not higher. *)
Theorem triggers_monotone (strict loose : DetectMotion) (a : frame) :
  motion_magnitude loose <= motion_magnitude strict ->
  motion_vector_count loose <= motion_vector_count strict ->
  triggers strict a = true ->
  triggers loose a = true.
Proof.
  intros Hm Hc Ht. apply triggers_true. apply triggers_true in Ht.
  pose proof (count_gt_antitone (magnitudes a) _ _ Hm). lia.
Qed.

Lemma triggers_monotone_witness :
  triggers (init 5 10 5) [repeat (MotionVector 31 0 0) 21] = true.
Proof.
  apply (triggers_monotone default (init 5 10 5)).
  - simpl. lia.
  - simpl. lia.
  - vm_compute. reflexivity.
Defined.

(** The unit roundoff of double precision: rounding to nearest moves a
    number by at most this fraction of itself. *)
Definition unit_roundoff : Q := 1 # 9007199254740992.

(** The elapsed time exceeds [motion_timeout] by more than the rounding
    of the double subtraction of line 62 can take away: the test of
    line 62 then holds on the doubles as it does on the exact numbers. *)
Definition surely_timed_out (self : DetectMotion) (ts : Q) : bool :=
  Qgtb ((ts - latest_motion self)
          - unit_roundoff * Qabs (ts - latest_motion self))
       (motion_timeout self).

Lemma surely_timed_out_exact (self : DetectMotion) (ts : Q) :
  surely_timed_out self ts = true ->
  Qgtb (ts - latest_motion self) (motion_timeout self) = true.
Proof.
  unfold surely_timed_out. rewrite !Qgtb_true.
  pose proof (Qabs_nonneg (ts - latest_motion self)) as Habs.
  assert (Hu : (0 <= unit_roundoff * Qabs (ts - latest_motion self))%Q).
  { apply Qmult_le_0_compat; [discriminate|exact Habs]. }
  revert Hu. generalize (unit_roundoff * Qabs (ts - latest_motion self))%Q.
  intros m Hm Hlt. lra.
Qed.

(** On exact times: a detector that is on clears at the first frame that
    does not trigger and is analysed more than [motion_timeout] after
    [latest_motion], and stays off while no frame triggers. *)
Lemma clears_on_exact_times (self : DetectMotion) (fs : list (frame * Q)) :
  motion_detected self = true ->
  forallb (fun ft => negb (triggers self (fst ft))) fs = true ->
  existsb (fun ft => Qgtb (snd ft - latest_motion self) (motion_timeout self)) fs = true ->
  motion_detected (analyze_all self fs) = false /\
  latest_motion (analyze_all self fs) = latest_motion self.
Proof.
  intros Hon Hquiet Hlate.
  split.
  - revert Hon Hquiet Hlate. induction fs as [|[a t] fs IH]; simpl; [discriminate|].
    intros Hon Hquiet Hlate.
    apply andb_true_iff in Hquiet as [Ha Hfs]. apply negb_true_iff in Ha.
    destruct (Qgtb (t - latest_motion self) (motion_timeout self)) eqn:Hg.
    + assert (Hs : analyze self a t = set_motion_detected false self).
      { unfold analyze, timed_out. rewrite Ha, Hon, Hg. reflexivity. }
      rewrite Hs.
      rewrite (LoopFacts.analyze_all_idle self); auto.
    + assert (Hs : analyze self a t = self).
      { unfold analyze, timed_out. rewrite Ha, Hon, Hg. reflexivity. }
      rewrite Hs. apply IH; assumption.
  - rewrite analyze_all_latest. clear Hon Hlate.
    generalize (latest_motion self) as t0.
    induction fs as [|[a t] fs IH]; intros t0; simpl; [reflexivity|].
    simpl in Hquiet. apply andb_true_iff in Hquiet as [Ha Hfs].
    apply negb_true_iff in Ha. rewrite Ha. apply IH. exact Hfs.
Qed.

(** X5. Debounce-out does happen: for a detector that is on, over frames
    none of which triggers, once a frame is analysed more than
    [motion_timeout] after [latest_motion], by a margin that the rounding
    of the double subtraction of line 62 cannot hide (a fraction 2^-53 of
    the elapsed time), the detector is off at the end of the run, with
    [latest_motion] still the time of the last trigger. *)
Theorem analyze_all_clears (self : DetectMotion) (fs : list (frame * Q)) :
  motion_detected self = true ->
  forallb (fun ft => negb (triggers self (fst ft))) fs = true ->
  existsb (fun ft => surely_timed_out self (snd ft)) fs = true ->
  motion_detected (analyze_all self fs) = false /\
  latest_motion (analyze_all self fs) = latest_motion self.
Proof.
  intros Hon Hquiet Hlate. apply clears_on_exact_times; [exact Hon|exact Hquiet|].
  apply existsb_exists in Hlate as (ft & Hin & Hft).
  apply existsb_exists. exists ft. split; [exact Hin|].
  apply surely_timed_out_exact. exact Hft.
Qed.

Lemma analyze_all_clears_witness :
  motion_detected
    (analyze_all (analyze default Scenario.busy_frame 0)
       [(Scenario.still_frame, (49 # 10)%Q); (Scenario.still_frame, (51 # 10)%Q);
        (Scenario.still_frame, 6%Q)]) = false.
Proof.
  destruct (analyze_all_clears (analyze default Scenario.busy_frame 0)
       [(Scenario.still_frame, (49 # 10)%Q); (Scenario.still_frame, (51 # 10)%Q);
        (Scenario.still_frame, 6%Q)]) as [Hoff _].
  - reflexivity.
  - vm_compute. reflexivity.
  - vm_compute. reflexivity.
  - exact Hoff.
Defined.

(** At the margin the hypothesis of the theorem fails, as it must: with
    [latest_motion] at 1 - 2^-53 and a frame at 6, the doubles of line 62
    give 6.0 - 0.9999999999999999 = 5.0, which is not greater than 5. *)
Example margin_is_not_sure :
  let self := set_motion_detected true
                (set_latest_motion (1 - unit_roundoff) default) in
  surely_timed_out self 6 = false /\ timed_out self 6 = true.
Proof. vm_compute. split; reflexivity. Qed.

Lemma py_range_nth (start stop step : Z) (i : nat) (x : Z) :
  nth_error (py_range start stop step) i = Some x ->
  x = start + step * Z.of_nat i /\
  (i < Z.to_nat ((stop - start + step - 1) / step))%nat.
Proof.
  unfold py_range. rewrite nth_error_map.
  destruct (nth_error (seq 0 _) i) as [k|] eqn:Hk; simpl; [|discriminate].
  intros [= <-].
  assert (Hlt : (i < length (seq 0 (Z.to_nat ((stop - start + step - 1) / step))))%nat).
  { apply nth_error_Some. rewrite Hk. discriminate. }
  rewrite length_seq in Hlt.
  apply (nth_error_nth _ _ O) in Hk. rewrite seq_nth in Hk by exact Hlt.
  simpl in Hk. subst k. split; [reflexivity|exact Hlt].
Qed.

Lemma motion_analysis_counts_nth (a : list (list Z)) (i : nat) (c x : Z) :
  nth_error (motion_analysis_counts a) i = Some (c, x) ->
  x = 10 * Z.of_nat i /\ c = count_gt a x /\ (i < 26)%nat.
Proof.
  unfold motion_analysis_counts. rewrite nth_error_map.
  destruct (nth_error (py_range 0 255 10) i) as [y|] eqn:Hy; simpl; [|discriminate].
  intros [= <- <-]. apply py_range_nth in Hy as [-> Hlt].
  split; [reflexivity|]. split; [reflexivity|exact Hlt].
Qed.

(** X6. The analysis shown by [show_motion_analysis] has 26 lines, for the
    thresholds 0, 10, ..., 250; down the lines the counts never increase,
    none is negative and none exceeds the number of magnitudes; and the
    fourth line (threshold 30, the default [motion_magnitude]) shows the
    very count that [analyze] compares with [motion_vector_count]. *)
Theorem motion_analysis_histogram (a : list (list Z)) :
  map snd (motion_analysis_counts a) =
    [0; 10; 20; 30; 40; 50; 60; 70; 80; 90; 100; 110; 120; 130; 140; 150;
     160; 170; 180; 190; 200; 210; 220; 230; 240; 250] /\
  length (motion_analysis_lines a) = 26%nat /\
  (forall (i j : nat) (ci xi cj xj : Z),
      (i <= j)%nat ->
      nth_error (motion_analysis_counts a) i = Some (ci, xi) ->
      nth_error (motion_analysis_counts a) j = Some (cj, xj) ->
      0 <= cj <= ci /\ ci <= Z.of_nat (length (concat a))) /\
  (forall (self : DetectMotion) (f : frame),
      motion_magnitude self = 30 ->
      exists c,
        nth_error (motion_analysis_counts (magnitudes f)) 3 = Some (c, 30) /\
        triggers self f = (motion_vector_count self <? c)).
Proof.
  split; [reflexivity|]. split; [reflexivity|]. split.
  - intros i j ci xi cj xj Hij Hi Hj.
    apply motion_analysis_counts_nth in Hi as (-> & -> & _).
    apply motion_analysis_counts_nth in Hj as (-> & -> & _).
    pose proof (count_gt_bounds a (10 * Z.of_nat j)).
    pose proof (count_gt_bounds a (10 * Z.of_nat i)).
    pose proof (count_gt_antitone a (10 * Z.of_nat i) (10 * Z.of_nat j) ltac:(lia)).
    lia.
  - intros self f Hm. exists (count_gt (magnitudes f) 30).
    split; [reflexivity|]. unfold triggers. rewrite Hm. reflexivity.
Qed.

End MotionExtra.

(** ** Further properties of the file operations *)

Module FileExtra.

Import Motion Names NameFacts Picam Scenario PicamFacts LoopFacts.
Local Open Scope picam_scope.

(** The ring from its first SPS header on. *)
Fixpoint from_first_sps (fs : list video_frame) : list video_frame :=
  match fs with
  | [] => []
  | f :: rest => if is_sps_header f then f :: rest else from_first_sps rest
  end.

Definition frames_bytes (fs : list video_frame) : list byte :=
  concat (map payload fs).

Lemma first_sps_offset (offset : nat) (fs : list video_frame) (p : nat) :
  first_sps offset fs = Some p ->
  (offset <= p)%nat /\
  drop (p - offset) (frames_bytes fs) = frames_bytes (from_first_sps fs) /\
  exists f rest, from_first_sps fs = f :: rest /\ is_sps_header f = true.
Proof.
  revert offset. induction fs as [|f fs IH]; intros offset; simpl; [discriminate|].
  destruct (is_sps_header f) eqn:Hf.
  - intros [= <-]. split; [lia|]. rewrite Nat.sub_diag.
    split; [reflexivity|eauto].
  - intros Hp. destruct (IH _ Hp) as (Hle & Hdrop & Hhead).
    split; [lia|]. split; [|exact Hhead].
    unfold frames_bytes in *. simpl.
    replace (p - offset)%nat
      with (length (payload f) + (p - (offset + length (payload f))))%nat by lia.
    rewrite drop_app_add'; [exact Hdrop|reflexivity].
Qed.

Lemma first_sps_none (offset : nat) (fs : list video_frame) :
  first_sps offset fs = None -> from_first_sps fs = [].
Proof.
  revert offset. induction fs as [|f fs IH]; intros offset; simpl; [reflexivity|].
  destruct (is_sps_header f); [discriminate|]. apply IH.
Qed.

(** X7. When [write_video] returns: [<ts>.h264] holds, in place of
    whatever it held, the bytes of the ring from its first SPS header on
    (the bytes after the stream position when the ring has no SPS
    header), so the file starts with an SPS header whenever the ring has
    one; the stream is empty and rewound; no other file and nothing else
    of the state has changed. (A failing [io.open] or [write], an
    [OSError], is not part of this model: nothing is said of it.) *)
Theorem write_video_from_header (t : string) (w w' : world) :
  write_video t w = Ok tt w' ->
  stream w' = {| ring := []; position := 0 |} /\
  files w' !! h264 t =
    Some (match first_sps 0 (ring (stream w)) with
          | Some _ => frames_bytes (from_first_sps (ring (stream w)))
          | None => drop (position (stream w)) (ring_bytes (stream w))
          end) /\
  (forall f rest, from_first_sps (ring (stream w)) = f :: rest ->
                  is_sps_header f = true) /\
  (forall p, p <> h264 t -> files w' !! p = files w !! p) /\
  (output w' = output w /\ ts w' = ts w /\ port1 w' = port1 w /\
   img_counter w' = img_counter w /\ stills w' = stills w /\
   procs w' = procs w /\ recording w' = recording w).
Proof.
  intros Hrun. unfold write_video, modify in Hrun. injection Hrun as <-. simpl.
  split; [reflexivity|]. split.
  { rewrite lookup_insert_eq. f_equal.
    destruct (first_sps 0 (ring (stream w))) as [p|] eqn:Hp; [|reflexivity].
    destruct (first_sps_offset 0 _ p Hp) as (_ & Hdrop & _).
    rewrite Nat.sub_0_r in Hdrop. exact Hdrop. }
  split.
  { intros f rest Hfrom.
    destruct (first_sps 0 (ring (stream w))) as [p|] eqn:Hp.
    - destruct (first_sps_offset 0 _ p Hp) as (_ & _ & f' & rest' & Heq & Hsps).
      congruence.
    - rewrite (first_sps_none 0 _ Hp) in Hfrom. discriminate. }
  split; [|auto 10].
  intros p Hne. rewrite lookup_insert_ne by congruence. reflexivity.
Qed.

(** A ring that starts in the middle of a group of pictures: a P frame,
    then an SPS header and two more frames. *)
Definition mid_stream : world :=
  set_stream
    {| ring := [mkVideoFrame false [x09; x09]%byte; mkVideoFrame true [x01]%byte;
                mkVideoFrame false [x02; x03]%byte];
       position := 5 |}
    (env (start ∅ 0 noon)).

Lemma write_video_from_header_witness :
  exists w',
    write_video "2017-03-05-120003" mid_stream = Ok tt w' /\
    files w' !! "2017-03-05-120003.h264"%string = Some [x01; x02; x03]%byte /\
    stream w' = {| ring := []; position := 0 |}.
Proof.
  destruct (write_video_from_header "2017-03-05-120003" mid_stream _ eq_refl)
    as (Hstream & Hfile & _).
  eexists. split; [reflexivity|]. split; [|exact Hstream].
  etransitivity; [exact Hfile|]. vm_compute. reflexivity.
Defined.

(** X8. Without [after.h264], [concat_vids] raises [FileNotFoundError] for
    it; by then the episode's file has been opened for appending, so it
    exists, empty if it did not exist and with its bytes otherwise, and no
    other file has changed. *)
Theorem concat_vids_without_after (t : string) (w : world) :
  h264 t <> "after.h264"%string ->
  files w !! "after.h264"%string = None ->
  exists w',
    concat_vids t w = Raise (FileNotFoundError "after.h264") w' /\
    files w' !! h264 t = Some (contents w (h264 t)) /\
    (forall p, p <> h264 t -> files w' !! p = files w !! p).
Proof.
  intros Hne Ha.
  unfold concat_vids, open_append, read_file, bind, get, modify, raise, contents.
  simpl. destruct (files w !! h264 t) as [before|] eqn:Hb; simpl.
  - rewrite Ha. eexists. split; [reflexivity|]. split; [exact Hb|]. auto.
  - rewrite lookup_insert_ne by exact Hne. rewrite Ha.
    eexists. split; [reflexivity|]. simpl.
    split; [apply lookup_insert_eq|].
    intros p Hp. rewrite lookup_insert_ne by congruence. reflexivity.
Qed.

Lemma concat_vids_without_after_witness :
  exists w',
    concat_vids "2017-03-05-120003" (env (start ∅ 0 noon))
      = Raise (FileNotFoundError "after.h264") w' /\
    files w' !! "2017-03-05-120003.h264"%string = Some [].
Proof.
  destruct (concat_vids_without_after "2017-03-05-120003" (env (start ∅ 0 noon)))
    as (w' & Hrun & Hfile & _).
  - vm_compute. discriminate.
  - reflexivity.
  - exists w'. split; [exact Hrun|exact Hfile].
Defined.

(** X9. The two ways [convert_video] raises. When [subprocess.run] raises,
    the exception goes through and no file is removed. When the
    transcoder exits with code zero but the source is not there,
    [os.remove] raises [FileNotFoundError] for the source; the files are
    as the transcoder left them. *)
Theorem convert_video_raises (t : string) (o : outcome) (w : world) :
  (forall e, o_raise o = Some e ->
     convert_video t o w = Raise e (environment o w)) /\
  (o_raise o = None ->
   o_returncode o = 0 ->
   files (environment o w) !! h264 t = None ->
   exists w',
     convert_video t o w = Raise (FileNotFoundError (h264 t)) w' /\
     files w' = files (environment o w)).
Proof.
  split.
  - intros e Hr. unfold convert_video, subprocess_run. unfold bind at 1.
    rewrite bind_blocking, Hr. reflexivity.
  - intros Hr Hrc Hmiss.
    unfold convert_video, subprocess_run. unfold bind at 1.
    rewrite bind_blocking, Hr. unfold bind, modify, ret. simpl.
    rewrite Hrc. simpl.
    rewrite os_remove_missing by exact Hmiss.
    eexists. split; reflexivity.
Qed.

Definition vanished : outcome :=
  {| o_clock := 12; o_today := at_second 12; o_motion := [];
     o_video := []; o_evicted := 0; o_jpeg := []; o_returncode := 0;
     o_written := []; o_unlinked := ["2017-03-05-120003.h264"%string];
     o_raise := None |}.

Lemma convert_video_raises_witness :
  exists w',
    convert_video "2017-03-05-120003" vanished
        (env (run script_args (start ∅ 0 noon) one_episode))
      = Raise (FileNotFoundError "2017-03-05-120003.h264") w'.
Proof.
  destruct (convert_video_raises "2017-03-05-120003" vanished
              (env (run script_args (start ∅ 0 noon) one_episode))) as [_ H].
  destruct H as (w' & Hrun & _).
  - reflexivity.
  - reflexivity.
  - vm_compute. reflexivity.
  - exists w'. exact Hrun.
Defined.

End FileExtra.

(** ** Reading the names back *)

Module NameExtra.

Import Names NameFacts.
Local Open Scope N_scope.

#[local] Arguments String.append !s1 s2 : simpl nomatch.

Definition is_digit (c : ascii) : bool :=
  (48 <=? N_of_ascii c) && (N_of_ascii c <=? 57).

Definition digit_value (c : ascii) : N := N_of_ascii c - 48.

(** [int(s)] on a string of decimal digits, most significant first. *)
Fixpoint read_aux (acc : N) (s : string) : N :=
  match s with
  | EmptyString => acc
  | String c rest => read_aux (10 * acc + digit_value c) rest
  end.

Definition int_of_string (s : string) : N := read_aux 0 s.

Fixpoint all_digits (s : string) : bool :=
  match s with
  | EmptyString => true
  | String c rest => is_digit c && all_digits rest
  end.

Definition is_dash (c : ascii) : bool := (N_of_ascii c =? 45).

Fixpoint has_dash (s : string) : bool :=
  match s with
  | EmptyString => false
  | String c rest => is_dash c || has_dash rest
  end.

(** What follows the last ["-"] of a string. *)
Fixpoint last_field (s : string) : string :=
  match s with
  | EmptyString => EmptyString
  | String c rest =>
      if has_dash rest then last_field rest
      else if is_dash c then rest else String c rest
  end.

(** The leading decimal digits of a string, as a number. *)
Fixpoint read_digits (acc : N) (s : string) : N :=
  match s with
  | EmptyString => acc
  | String c rest =>
      if is_digit c then read_digits (10 * acc + digit_value c) rest else acc
  end.

(** The counter written in the name of a still. *)
Definition counter_of (name : string) : N := read_digits 0 (last_field name).

Lemma string_app_assoc (a b c : string) : (a +:+ b) +:+ c = a +:+ (b +:+ c).
Proof. induction a as [|x a IH]; simpl; [reflexivity|]. rewrite IH. reflexivity. Qed.

Lemma read_aux_app (acc : N) (a b : string) :
  read_aux acc (a +:+ b) = read_aux (read_aux acc a) b.
Proof. revert acc. induction a as [|x a IH]; intros acc; simpl; [reflexivity|]. apply IH. Qed.

Lemma digit_char_value (d : N) : d < 10 -> digit_value (digit_char d) = d.
Proof.
  intros Hd. unfold digit_value, digit_char.
  rewrite N_ascii_embedding by lia. lia.
Qed.

Lemma digit_char_is_digit (d : N) : d < 10 -> is_digit (digit_char d) = true.
Proof.
  intros Hd. unfold is_digit, digit_char.
  rewrite N_ascii_embedding by lia.
  apply andb_true_iff. split; apply N.leb_le; lia.
Qed.

Lemma decimal_aux_app (fuel : nat) (n : N) (acc : string) :
  decimal_aux fuel n acc = decimal_aux fuel n EmptyString +:+ acc.
Proof.
  revert n acc. induction fuel as [|fuel IH]; intros n acc; simpl; [reflexivity|].
  destruct (n / 10 =? 0); [reflexivity|].
  rewrite IH. rewrite (IH _ (String _ EmptyString)).
  rewrite string_app_assoc. reflexivity.
Qed.

Lemma decimal_aux_value (fuel : nat) (n : N) :
  n < 10 ^ N.of_nat fuel ->
  read_aux 0 (decimal_aux fuel n EmptyString) = n.
Proof.
  revert n. induction fuel as [|fuel IH]; intros n Hn.
  - simpl in *. lia.
  - rewrite Nat2N.inj_succ, N.pow_succ_r' in Hn.
    assert (Hd : n mod 10 < 10) by (apply N.mod_lt; discriminate).
    cbn [decimal_aux]. destruct (n / 10 =? 0) eqn:Hq.
    + apply N.eqb_eq in Hq. cbn [read_aux].
      rewrite digit_char_value by exact Hd.
      pose proof (N.div_mod' n 10). lia.
    + rewrite decimal_aux_app, read_aux_app.
      rewrite IH by (apply N.Div0.div_lt_upper_bound; exact Hn).
      cbn [read_aux]. rewrite digit_char_value by exact Hd.
      pose proof (N.div_mod' n 10). lia.
Qed.

Lemma decimal_fuel (n : N) : n < 10 ^ N.of_nat (S (N.to_nat (N.log2 n))).
Proof.
  rewrite Nat2N.inj_succ, N2Nat.id.
  destruct (N.eq_dec n 0) as [->|Hn]; [reflexivity|].
  assert (Hpos : 0 < n) by lia.
  pose proof (N.log2_spec n Hpos) as [_ Hlt].
  apply (N.lt_le_trans _ _ _ Hlt).
  apply N.pow_le_mono_l. lia.
Qed.

Lemma decimal_value (n : N) : int_of_string (decimal n) = n.
Proof. apply decimal_aux_value, decimal_fuel. Qed.

Lemma zeros_value (k : nat) (acc : N) (s : string) :
  read_aux 0 (zeros k +:+ s) = read_aux 0 s.
Proof. induction k as [|k IH]; simpl; [reflexivity|exact IH]. Qed.

Lemma zfill_value (width : nat) (n : N) : int_of_string (zfill width n) = n.
Proof.
  unfold int_of_string, zfill. rewrite (zeros_value _ 0). apply decimal_value.
Qed.

Lemma all_digits_app (a b : string) :
  all_digits (a +:+ b) = all_digits a && all_digits b.
Proof.
  induction a as [|x a IH]; simpl; [reflexivity|].
  rewrite IH, andb_assoc. reflexivity.
Qed.

Lemma decimal_aux_digits (fuel : nat) (n : N) (acc : string) :
  all_digits acc = true -> all_digits (decimal_aux fuel n acc) = true.
Proof.
  revert n acc. induction fuel as [|fuel IH]; intros n acc Hacc; simpl; [exact Hacc|].
  assert (Hd : all_digits (String (digit_char (n mod 10)) acc) = true).
  { simpl. rewrite Hacc, digit_char_is_digit; [reflexivity|].
    apply N.mod_lt. discriminate. }
  destruct (n / 10 =? 0); [exact Hd|]. apply IH. exact Hd.
Qed.

Lemma zeros_digits (k : nat) : all_digits (zeros k) = true.
Proof. induction k as [|k IH]; simpl; [reflexivity|exact IH]. Qed.

Lemma zfill_digits (width : nat) (n : N) : all_digits (zfill width n) = true.
Proof.
  unfold zfill. rewrite all_digits_app, zeros_digits. simpl.
  unfold decimal. apply decimal_aux_digits. reflexivity.
Qed.

Lemma decimal_aux_length (fuel : nat) (n : N) (acc : string) (k : nat) :
  n < 10 ^ N.of_nat k -> (1 <= k)%nat ->
  (String.length (decimal_aux fuel n acc) <= k + String.length acc)%nat.
Proof.
  revert n acc k. induction fuel as [|fuel IH]; intros n acc k Hn Hk; simpl; [lia|].
  destruct (n / 10 =? 0) eqn:Hq; simpl; [lia|].
  apply N.eqb_neq in Hq.
  destruct k as [|[|k]]; [lia| |].
  - exfalso. apply Hq. apply N.div_small. simpl in Hn. exact Hn.
  - rewrite Nat2N.inj_succ, N.pow_succ_r' in Hn.
    assert (Hdiv : n / 10 < 10 ^ N.of_nat (S k))
      by (apply N.Div0.div_lt_upper_bound; exact Hn).
    pose proof (IH (n / 10) (String (digit_char (n mod 10)) acc) (S k) Hdiv ltac:(lia)) as Hl.
    simpl in Hl. lia.
Qed.

Lemma zeros_length (k : nat) : String.length (zeros k) = k.
Proof. induction k as [|k IH]; simpl; [reflexivity|]. rewrite IH. reflexivity. Qed.

Lemma zfill_length (width : nat) (n : N) :
  (width <= String.length (zfill width n))%nat /\
  (n < 10 ^ N.of_nat width -> (1 <= width)%nat ->
   String.length (zfill width n) = width).
Proof.
  unfold zfill. rewrite string_length_app, zeros_length.
  split; [lia|]. intros Hn Hw.
  pose proof (decimal_aux_length (S (N.to_nat (N.log2 n))) n EmptyString width Hn Hw) as Hl.
  fold (decimal n) in Hl. simpl in Hl. lia.
Qed.

Lemma digits_no_dash (s : string) : all_digits s = true -> has_dash s = false.
Proof.
  induction s as [|c s IH]; simpl; [reflexivity|].
  rewrite andb_true_iff. intros [Hc Hs]. rewrite (IH Hs), orb_false_r.
  unfold is_digit in Hc. apply andb_true_iff in Hc as [Hlo _].
  apply N.leb_le in Hlo. unfold is_dash. apply N.eqb_neq. lia.
Qed.

Lemma has_dash_app (a b : string) : has_dash (a +:+ b) = has_dash a || has_dash b.
Proof.
  induction a as [|x a IH]; simpl; [reflexivity|].
  rewrite IH, orb_assoc. reflexivity.
Qed.

Lemma last_field_app (a b : string) :
  has_dash b = false -> last_field (a +:+ String "-" b) = b.
Proof.
  intros Hb. induction a as [|x a IH]; simpl.
  - rewrite Hb. reflexivity.
  - rewrite has_dash_app. simpl. rewrite orb_true_r. exact IH.
Qed.

Lemma read_digits_stop (acc : N) (ds rest : string) :
  all_digits ds = true ->
  read_digits acc (ds +:+ String "." rest) = read_aux acc ds.
Proof.
  revert acc. induction ds as [|c ds IH]; intros acc; simpl; [reflexivity|].
  rewrite andb_true_iff. intros [-> Hds]. apply IH. exact Hds.
Qed.

(** The counter can be read back from a name. *)
Lemma counter_of_img_name (d : datetime) (counter : nat) :
  counter_of (img_name d counter) = N.of_nat counter.
Proof.
  unfold counter_of, img_name.
  change (format_ts d +:+ "-" +:+ zfill 3 (N.of_nat counter) +:+ ".jpg")%string
    with (format_ts d +:+ String "-" (zfill 3 (N.of_nat counter) +:+ String "." "jpg")).
  rewrite last_field_app.
  - rewrite read_digits_stop by apply zfill_digits. apply zfill_value.
  - rewrite has_dash_app, digits_no_dash by apply zfill_digits. reflexivity.
Qed.

(** X10. The number formatting of the names can be read back:
    [zfill width n] consists of decimal digits only, has at least [width]
    of them (exactly [width] when [n] has no more than [width] digits)
    and reads as [n]; and the counter of a still is recovered from its
    name, so two names with different counters are different, whatever
    their timestamps. *)
Theorem names_read_back (width : nat) (n : N) (d d' : datetime) (i j : nat) :
  int_of_string (zfill width n) = n /\
  all_digits (zfill width n) = true /\
  (width <= String.length (zfill width n))%nat /\
  (n < 10 ^ N.of_nat width -> (1 <= width)%nat ->
   String.length (zfill width n) = width) /\
  counter_of (img_name d i) = N.of_nat i /\
  (img_name d i = img_name d' j -> i = j).
Proof.
  split; [apply zfill_value|]. split; [apply zfill_digits|].
  split; [apply zfill_length|]. split; [apply zfill_length|].
  split; [apply counter_of_img_name|].
  intros Heq. apply Nat2N.inj.
  rewrite <- (counter_of_img_name d i), <- (counter_of_img_name d' j), Heq.
  reflexivity.
Qed.

End NameExtra.

(** ** Further properties of [main] *)

Module LoopExtra.

Import Motion MotionFacts Names NameFacts Picam Scenario PicamFacts LoopFacts.
Local Open Scope picam_scope.

Lemma environment_recording (o : outcome) (w : world) :
  recording (environment o w) = recording w.
Proof.
  unfold environment. simpl.
  destruct (record_video_same o (set_output (analyze_all (output w) (o_motion o)) w))
    as (_ & _ & _ & _ & _ & -> & _). reflexivity.
Qed.

Lemma stop_all_stops (w : world) :
  recording w = [1%nat; 2%nat] -> recording (stop_all w) = [].
Proof. unfold stop_all. simpl. intros ->. reflexivity. Qed.

Lemma written_keeps (written : list (string * list byte))
    (m : gmap string (list byte)) (p : string) :
  is_Some (m !! p) ->
  is_Some (fold_left (fun m kv => <[fst kv := snd kv]> m) written m !! p).
Proof.
  revert m. induction written as [|[k v] written IH]; intros m Hp; simpl; [exact Hp|].
  apply IH. destruct (decide (k = p)) as [->|Hne].
  - rewrite lookup_insert_eq. eauto.
  - rewrite lookup_insert_ne by exact Hne. exact Hp.
Qed.

(** Files are not lost while a call blocks unless another process
    removes some. *)
Lemma environment_keeps_files (o : outcome) (w : world) (p : string) :
  o_unlinked o = [] ->
  is_Some (files w !! p) -> is_Some (files (environment o w) !! p).
Proof.
  intros Hun Hp. unfold environment, other_processes. simpl. rewrite Hun. simpl.
  apply written_keeps. unfold record_video.
  destruct (port1 (set_output _ w)) as [|path]; simpl; [exact Hp|].
  destruct (decide (path = p)) as [->|Hne].
  - rewrite lookup_alter_eq. destruct Hp as [b ->]. simpl. eauto.
  - rewrite lookup_alter_ne by exact Hne. exact Hp.
Qed.

#[local] Opaque environment stop_all format_ts img_name.

(** The bytes [write_video] puts into the episode's file. *)
Definition pre_roll (w : world) : list byte :=
  drop (match first_sps 0 (ring (stream w)) with
        | Some p => p
        | None => position (stream w)
        end)
       (ring_bytes (stream w)).

(** The world after lines 130-132 and the first [next(img_name)]. *)
Definition opened (w : world) : world :=
  let t := format_ts (today w) in
  set_img_counter (S (img_counter w))
    (set_stream {| ring := []; position := 0 |}
       (set_files (<[h264 t := pre_roll w]>
                     (<["after.h264"%string := []]> (files w)))
          (set_ts (Some t) (set_port1 (ToFile "after.h264") w)))).

(** A computation that changes nothing but files, whether it returns or
    raises. *)
Definition only_files {A} (c : M A) : Prop :=
  forall w, match c w with
            | Ok _ w' => w' = set_files (files w') w
            | Raise _ w' => w' = set_files (files w') w
            end.

Lemma set_files_same (w : world) : w = set_files (files w) w.
Proof. destruct w. reflexivity. Qed.

Lemma only_files_bind {A B} (c : M A) (k : A -> M B) :
  only_files c -> (forall a, only_files (k a)) -> only_files (bind c k).
Proof.
  intros Hc Hk w. unfold bind. specialize (Hc w).
  destruct (c w) as [a w1|e w1]; [|exact Hc].
  specialize (Hk a w1). rewrite Hc in Hk.
  destruct (k a (set_files (files w1) w)) as [b w2|e w2] eqn:Hr;
    rewrite <- Hc in Hr; rewrite Hr; rewrite Hk; reflexivity.
Qed.

Lemma only_files_ret {A} (a : A) : only_files (ret a).
Proof. intros w. apply set_files_same. Qed.

Lemma only_files_raise {A} (e : exn) : only_files (@raise A e).
Proof. intros w. apply set_files_same. Qed.

Lemma only_files_os_remove (path : string) : only_files (os_remove path).
Proof.
  intros w. unfold os_remove, bind, get, modify, raise.
  destruct (files w !! path); [reflexivity|apply set_files_same].
Qed.

Lemma only_files_concat_vids (t : string) : only_files (concat_vids t).
Proof.
  unfold concat_vids, open_append, read_file, append_file.
  apply only_files_bind.
  { intros w. unfold modify. destruct (files w !! h264 t);
      [apply set_files_same|reflexivity]. }
  intros _. apply only_files_bind.
  { intros w. unfold bind, get.
    destruct (files w !! "after.h264"%string);
      [apply only_files_ret|apply only_files_raise]. }
  intros data. apply only_files_bind; [intros w; reflexivity|].
  intros _. apply only_files_os_remove.
Qed.

(** The end of an episode, lines 137-138. *)
Lemma end_episode_world (w : world) :
  match end_episode w with
  | Ok c w' => c = TickWait /\ w' = set_files (files w') (set_port1 ToStream w)
  | Raise _ w' => w' = set_files (files w') (set_port1 ToStream w)
  end.
Proof.
  unfold end_episode, split_recording, read_ts.
  unfold bind at 1, modify at 1. unfold bind at 1, bind at 1, get at 1.
  cbn [ts set_port1].
  destruct (ts w) as [t|]; [|apply set_files_same].
  unfold ret at 1. unfold bind.
  pose proof (only_files_concat_vids t (set_port1 ToStream w)) as Hc.
  destruct (concat_vids t (set_port1 ToStream w)) as [u w'|e w']; [|exact Hc].
  unfold ret. split; [reflexivity|exact Hc].
Qed.

Lemma while_motion_on (w : world) :
  motion_detected (output w) = true ->
  while_motion w =
    Ok (Capturing (img_name (today w) (S (img_counter w))))
       (set_img_counter (S (img_counter w)) w).
Proof.
  intros Hm. unfold while_motion, bind, get. rewrite Hm.
  unfold next_img_name, gen_img_name_next, bind, get, modify, ret. reflexivity.
Qed.

Lemma while_motion_off (w : world) :
  motion_detected (output w) = false -> while_motion w = end_episode w.
Proof. intros Hm. unfold while_motion, bind at 1, get at 1. rewrite Hm. reflexivity. Qed.

Lemma after_waits_on (args : main_args) (w : world) :
  motion_detected (output w) = true ->
  after_waits args w =
    Ok (Capturing (img_name (today w) (S (img_counter w)))) (opened w).
Proof.
  intros Hm. unfold after_waits. unfold bind at 1, get at 1. rewrite Hm.
  unfold split_recording, read_ts, write_video, bind, get, modify, ret.
  cbn [ts set_ts set_port1 set_files].
  rewrite while_motion_on by exact Hm. reflexivity.
Qed.

(** *** The steps of the loop, case by case *)

Lemma step_raise (args : main_args) (s : state) (o : outcome) (e : exn) :
  monitoring s = true -> o_raise o = Some e ->
  step args s o = leave e (environment o (env s)).
Proof.
  intros Hm Hr. rewrite (step_resume args s o Hm).
  destruct s as [c w]. unfold monitoring in Hm. simpl in *.
  destruct c; try discriminate; simpl.
  - rewrite bind_blocking, Hr. reflexivity.
  - rewrite bind_blocking, Hr. reflexivity.
  - rewrite bind_blocking, Hr. reflexivity.
  - unfold capture. unfold bind at 1. rewrite bind_blocking, Hr. reflexivity.
  - rewrite bind_blocking, Hr. reflexivity.
  - unfold convert_video, subprocess_run. unfold bind at 1, bind at 1.
    rewrite bind_blocking, Hr. reflexivity.
Qed.

Lemma step_warmup (args : main_args) (w : world) (o : outcome) :
  o_raise o = None ->
  step args {| pc := Warmup; env := w |} o =
    {| pc := TickWait;
       env := set_output (set_motion_detected false (output (environment o w)))
                         (environment o w) |}.
Proof. intros Hr. unfold step. simpl. rewrite bind_blocking, Hr. reflexivity. Qed.

Lemma step_tick (args : main_args) (w : world) (o : outcome) :
  o_raise o = None ->
  step args {| pc := TickWait; env := w |} o =
    {| pc := MotionWait; env := environment o w |}.
Proof. intros Hr. unfold step. simpl. rewrite bind_blocking, Hr. reflexivity. Qed.

Lemma step_motion (args : main_args) (w : world) (o : outcome) :
  o_raise o = None ->
  step args {| pc := MotionWait; env := w |} o =
    settle (after_waits args (environment o w)).
Proof. intros Hr. unfold step. simpl. rewrite bind_blocking, Hr. reflexivity. Qed.

Lemma step_capture (args : main_args) (w : world) (o : outcome) (name : string) :
  o_raise o = None ->
  step args {| pc := Capturing name; env := w |} o =
    {| pc := StillWait;
       env := set_stills (stills (environment o w) ++ [name])
                (set_files (<[name := o_jpeg o]> (files (environment o w)))
                           (environment o w)) |}.
Proof.
  intros Hr. unfold step. simpl. unfold capture. unfold bind at 1.
  rewrite bind_blocking, Hr. reflexivity.
Qed.

Lemma step_still (args : main_args) (w : world) (o : outcome) :
  o_raise o = None ->
  step args {| pc := StillWait; env := w |} o =
    settle (while_motion (environment o w)).
Proof. intros Hr. unfold step. simpl. rewrite bind_blocking, Hr. reflexivity. Qed.

Lemma convert_video_after (t : string) (o : outcome) (w : world) :
  o_raise o = None ->
  convert_video t o w =
  if o_returncode o =? 0
  then os_remove (h264 t)
         (set_procs (procs (environment o w)
                       ++ [(avconv_cmd (h264 t) (mp4 t), o_returncode o)])
                    (environment o w))
  else Ok tt (set_procs (procs (environment o w)
                           ++ [(avconv_cmd (h264 t) (mp4 t), o_returncode o)])
                        (environment o w)).
Proof.
  intros Hr. unfold convert_video, subprocess_run. unfold bind at 1.
  rewrite bind_blocking, Hr. unfold bind, modify, ret. cbn [set_procs procs].
  destruct (o_returncode o =? 0); reflexivity.
Qed.

Lemma convert_video_world (t : string) (o : outcome) (w : world) :
  o_raise o = None ->
  exists w',
    w' = set_files (files w')
           (set_procs (procs (environment o w)
                         ++ [(avconv_cmd (h264 t) (mp4 t), o_returncode o)])
                      (environment o w)) /\
    (convert_video t o w = Ok tt w' \/ exists e, convert_video t o w = Raise e w').
Proof.
  intros Hr. rewrite (convert_video_after t o w Hr).
  destruct (o_returncode o =? 0).
  - match goal with |- context [os_remove ?p ?w0] =>
      pose proof (only_files_os_remove p w0) as Hq;
      destruct (os_remove p w0) as [[] w'|e w'] end.
    + exists w'. split; [exact Hq|]. left. reflexivity.
    + exists w'. split; [exact Hq|]. right. exists e. reflexivity.
  - eexists. split; [apply set_files_same|]. left. reflexivity.
Qed.

Lemma step_convert (args : main_args) (w : world) (o : outcome) (t : string) :
  o_raise o = None ->
  exists w',
    w' = set_files (files w')
           (set_procs (procs (environment o w)
                         ++ [(avconv_cmd (h264 t) (mp4 t), o_returncode o)])
                      (environment o w)) /\
    (step args {| pc := Converting t; env := w |} o = {| pc := TickWait; env := w' |} \/
     exists e, step args {| pc := Converting t; env := w |} o = leave e w').
Proof.
  intros Hr.
  assert (Hstep : step args {| pc := Converting t; env := w |} o =
                  settle (bind (convert_video t o) (fun _ => ret TickWait) w))
    by reflexivity.
  rewrite Hstep.
  destruct (convert_video_world t o w Hr) as (w' & Hw' & [Hok|[e He]]).
  - exists w'. split; [exact Hw'|]. left. unfold bind. rewrite Hok. reflexivity.
  - exists w'. split; [exact Hw'|]. right. exists e. unfold bind. rewrite He.
    reflexivity.
Qed.

Lemma end_episode_merges (w : world) (t : string) (data : list byte) :
  ts w = Some t ->
  h264 t <> "after.h264"%string ->
  files w !! "after.h264"%string = Some data ->
  end_episode w =
    Ok TickWait
       (set_files (delete "after.h264"%string
                     (<[h264 t := contents w (h264 t) ++ data]> (files w)))
                  (set_port1 ToStream w)).
Proof.
  intros Ht Hne Hdata.
  unfold end_episode, split_recording, read_ts.
  unfold bind at 1, modify at 1. unfold bind at 1, bind at 1, get at 1.
  cbn [ts set_port1]. rewrite Ht. unfold ret at 1. unfold bind.
  rewrite (concat_vids_present t (set_port1 ToStream w) data Hne Hdata).
  reflexivity.
Qed.

(** X11. In every run of [main] the names passed to [camera.capture] are
    pairwise different, so no still of a run overwrites an earlier one. *)
Theorem stills_never_repeat (args : main_args)
    (dir : gmap string (list byte)) (now : Q) (d : datetime)
    (script : list outcome) :
  NoDup (stills (env (run args (start dir now d) script))).
Proof.
  apply NoDup_alt. intros i j name Hi Hj.
  destruct (run_counted args (start dir now d) script (start_counted dir now d))
    as [Hn _].
  destruct (Hn i name Hi) as [di Hdi]. destruct (Hn j name Hj) as [dj Hdj].
  assert (Hc : N.of_nat (S i) = N.of_nat (S j)).
  { rewrite <- (NameExtra.counter_of_img_name di (S i)).
    rewrite <- (NameExtra.counter_of_img_name dj (S j)).
    rewrite <- Hdi, <- Hdj. reflexivity. }
  apply Nat2N.inj in Hc. lia.
Qed.

(** X12. When a blocking call raises, whichever it is, [main] is over:
    with no error for [KeyboardInterrupt], with the exception otherwise.
    Nothing is assembled, captured or converted on the way out: the files
    are as they were when the call raised (an open episode keeps its
    [after.h264] unmerged), and no still and no command is added. *)
Theorem raising_call_ends_main (args : main_args) (s : state) (o : outcome)
    (e : exn) :
  monitoring s = true ->
  o_raise o = Some e ->
  let s' := step args s o in
  pc s' = Exited (if is_KeyboardInterrupt e then None else Some e) /\
  files (env s') = files (environment o (env s)) /\
  stills (env s') = stills (env s) /\
  procs (env s') = procs (env s) /\
  ts (env s') = ts (env s) /\
  port1 (env s') = port1 (env s) /\
  (forall script, run args s' script = s').
Proof.
  intros Hm Hr s'. unfold s'. rewrite (step_raise args s o e Hm Hr).
  unfold leave. cbn [pc env].
  destruct (stop_all_same (environment o (env s)))
    as (-> & _ & _ & -> & -> & -> & ->).
  rewrite environment_stills, environment_procs, environment_ts, environment_port1.
  repeat (split; [reflexivity|]).
  intros script. apply run_exited. reflexivity.
Qed.

Definition in_episode : state :=
  run default_args (start ∅ 0 noon) (firstn 4 one_episode).

Definition interrupted : outcome :=
  {| o_clock := 4; o_today := at_second 4; o_motion := [];
     o_video := [mkVideoFrame false [x07]%byte]; o_evicted := 0; o_jpeg := [];
     o_returncode := 0; o_written := []; o_unlinked := [];
     o_raise := Some KeyboardInterrupt |}.

Lemma raising_call_ends_main_witness :
  pc (step default_args in_episode interrupted) = Exited None /\
  files (env (step default_args in_episode interrupted)) !! "after.h264"%string
    = Some [x00; x01; x07]%byte.
Proof.
  destruct (raising_call_ends_main default_args in_episode interrupted
              KeyboardInterrupt) as (Hpc & Hfiles & _).
  - vm_compute. reflexivity.
  - reflexivity.
  - split; [exact Hpc|]. rewrite Hfiles. vm_compute. reflexivity.
Defined.

(** X13. An episode opens (lines 128-135): when the wait of line 127
    returns with the detector on, recording is split to a fresh, empty
    [after.h264]; [ts] becomes the current timestamp; [<ts>.h264] holds
    the pre-roll taken from the ring, which is left empty; no other file
    changes; and the first capture is pending under the next name of the
    generator. *)
Theorem episode_opens (args : main_args) (s : state) (o : outcome) :
  pc s = MotionWait ->
  o_raise o = None ->
  motion_detected (output (environment o (env s))) = true ->
  let w1 := environment o (env s) in
  let t := format_ts (o_today o) in
  let s' := step args s o in
  pc s' = Capturing (img_name (o_today o) (S (img_counter (env s)))) /\
  ts (env s') = Some t /\
  port1 (env s') = ToFile "after.h264" /\
  files (env s') !! h264 t = Some (pre_roll w1) /\
  files (env s') !! "after.h264"%string = Some [] /\
  (forall p, p <> h264 t -> p <> "after.h264"%string ->
             files (env s') !! p = files w1 !! p) /\
  stream (env s') = {| ring := []; position := 0 |} /\
  stills (env s') = stills (env s).
Proof.
  intros Hpc Hr Hon w1 t s'. destruct s as [c w]. cbn [pc env] in *. subst c.
  unfold s'. rewrite (step_motion args w o Hr).
  rewrite (after_waits_on args _ Hon). cbn [settle pc env].
  destruct (environment_clock o w) as [_ Htoday].
  fold w1 in Htoday |- *.
  unfold opened. cbn [ts port1 files stream stills set_img_counter set_stream
                      set_files set_ts set_port1 img_counter].
  rewrite Htoday. fold t.
  split; [unfold w1; rewrite environment_img_counter; reflexivity|].
  split; [reflexivity|]. split; [reflexivity|].
  split; [apply lookup_insert_eq|].
  split.
  { rewrite lookup_insert_ne by apply format_ts_not_after. apply lookup_insert_eq. }
  split.
  { intros p Hp1 Hp2. rewrite !lookup_insert_ne by congruence. reflexivity. }
  split; [reflexivity|]. unfold w1. apply environment_stills.
Qed.

Definition before_episode : state :=
  run default_args (start ∅ 0 noon) (firstn 2 one_episode).

Lemma episode_opens_witness :
  pc (step default_args before_episode (quiet 3 3 []))
    = Capturing "2017-03-05-120003-001.jpg" /\
  ts (env (step default_args before_episode (quiet 3 3 [])))
    = Some "2017-03-05-120003"%string.
Proof.
  destruct (episode_opens default_args before_episode (quiet 3 3 []))
    as (Hpc & Hts & _).
  - vm_compute. reflexivity.
  - reflexivity.
  - vm_compute. reflexivity.
  - split; [rewrite Hpc|rewrite Hts]; vm_compute; reflexivity.
Defined.

(** X14. An episode closes (lines 133, 137-138): when the wait of line 136
    returns with the detector off, [after.h264] exists and [ts] is the
    timestamp of the episode, recording goes back to the ring, the
    episode's file gets the bytes of [after.h264] appended, [after.h264]
    is removed, no other file changes, no still is taken and the loop is
    back at its top with [ts] still bound. *)
Theorem episode_closes (args : main_args) (s : state) (o : outcome)
    (d : datetime) (data : list byte) :
  pc s = StillWait ->
  o_raise o = None ->
  motion_detected (output (environment o (env s))) = false ->
  ts (env s) = Some (format_ts d) ->
  files (environment o (env s)) !! "after.h264"%string = Some data ->
  let w1 := environment o (env s) in
  let t := format_ts d in
  let s' := step args s o in
  pc s' = TickWait /\
  port1 (env s') = ToStream /\
  files (env s') !! h264 t = Some (contents w1 (h264 t) ++ data) /\
  files (env s') !! "after.h264"%string = None /\
  (forall p, p <> h264 t -> p <> "after.h264"%string ->
             files (env s') !! p = files w1 !! p) /\
  ts (env s') = Some t /\
  stills (env s') = stills (env s).
Proof.
  intros Hpc Hr Hoff Hts Hdata w1 t s'. destruct s as [c w]. cbn [pc env] in *.
  subst c. unfold s'. rewrite (step_still args w o Hr).
  rewrite (while_motion_off _ Hoff).
  assert (Hts1 : ts w1 = Some t) by (unfold w1; rewrite environment_ts; exact Hts).
  rewrite (end_episode_merges (environment o w) t data Hts1
             (format_ts_not_after d) Hdata).
  cbn [settle pc env port1 files ts stills set_files set_port1]. fold w1.
  split; [reflexivity|]. split; [reflexivity|].
  split.
  { rewrite lookup_delete_ne
      by (intros H; exact (format_ts_not_after d (eq_sym H))).
    apply lookup_insert_eq. }
  split; [apply lookup_delete_eq|].
  split.
  { intros p Hp1 Hp2. rewrite lookup_delete_ne, lookup_insert_ne by congruence.
    reflexivity. }
  split; [exact Hts1|]. unfold w1. apply environment_stills.
Qed.

Lemma episode_closes_witness :
  pc (step default_args in_episode (quiet 9 9 [(still_frame, 9%Q)])) = TickWait /\
  files (env (step default_args in_episode (quiet 9 9 [(still_frame, 9%Q)])))
    !! "after.h264"%string = None.
Proof.
  destruct (episode_closes default_args in_episode (quiet 9 9 [(still_frame, 9%Q)])
              (at_second 3) [x00; x01; x00; x01]%byte) as (Hpc & _ & _ & Hgone & _).
  - vm_compute. reflexivity.
  - reflexivity.
  - vm_compute. reflexivity.
  - vm_compute. reflexivity.
  - vm_compute. reflexivity.
  - split; [exact Hpc|exact Hgone].
Defined.

(** *** Where the recording goes, and what [ts] holds *)

Definition timestamp (v : option string) : Prop :=
  exists d, v = Some (format_ts d).

(** While [main] runs both splitter ports are recorded; port 1 records to
    [after.h264] exactly while an episode is open (a capture is pending
    or the wait of line 136 is), and to the ring otherwise; [ts] is
    unbound or a timestamp, and it is a timestamp while an episode is
    open and when the transcoder runs; once [main] is over no port is
    recorded. *)
Definition disciplined (s : state) : Prop :=
  match pc s with
  | Warmup | TickWait | MotionWait =>
      port1 (env s) = ToStream /\
      (ts (env s) = None \/ timestamp (ts (env s))) /\
      recording (env s) = [1%nat; 2%nat]
  | Capturing _ | StillWait =>
      port1 (env s) = ToFile "after.h264" /\
      timestamp (ts (env s)) /\
      recording (env s) = [1%nat; 2%nat]
  | Converting t =>
      port1 (env s) = ToStream /\
      ts (env s) = Some t /\ timestamp (Some t) /\
      recording (env s) = [1%nat; 2%nat]
  | Exited _ => recording (env s) = []
  end.

Lemma disciplined_leave (e : exn) (w : world) :
  recording w = [1%nat; 2%nat] -> disciplined (leave e w).
Proof. intros Hrec. unfold disciplined, leave. cbn [pc env]. apply stop_all_stops, Hrec. Qed.

Lemma disciplined_still (w : world) :
  port1 w = ToFile "after.h264" -> timestamp (ts w) ->
  recording w = [1%nat; 2%nat] ->
  disciplined (settle (while_motion w)).
Proof.
  intros Hp Ht Hrec. destruct (motion_detected (output w)) eqn:Hm.
  - rewrite (while_motion_on w Hm). unfold disciplined. cbn. auto.
  - rewrite (while_motion_off w Hm).
    pose proof (end_episode_world w) as He.
    destruct (end_episode w) as [c w'|e w'].
    + destruct He as [-> Hw']. unfold disciplined. cbn [settle pc env].
      rewrite Hw'. cbn. auto.
    + cbn [settle]. apply disciplined_leave. rewrite He. cbn. exact Hrec.
Qed.

Lemma disciplined_step (args : main_args) (s : state) (o : outcome) :
  disciplined s -> disciplined (step args s o).
Proof.
  intros Hd. destruct (monitoring s) eqn:Hmon;
    [|rewrite (step_exited args s o Hmon); exact Hd].
  assert (Hrec : recording (environment o (env s)) = [1%nat; 2%nat]).
  { rewrite environment_recording. destruct s as [c w]. unfold disciplined in Hd.
    cbn [pc env] in *. destruct c; try discriminate; tauto. }
  destruct (o_raise o) as [e|] eqn:Hr.
  { rewrite (step_raise args s o e Hmon Hr). apply disciplined_leave, Hrec. }
  destruct s as [c w]. unfold disciplined in Hd. cbn [pc env] in *.
  destruct c; try discriminate.
  - (* warm-up *)
    destruct Hd as (Hp & Ht & _). rewrite (step_warmup args w o Hr).
    unfold disciplined. cbn [pc env ts port1 recording set_output].
    rewrite environment_port1, environment_ts. auto.
  - (* line 126 *)
    destruct Hd as (Hp & Ht & _). rewrite (step_tick args w o Hr).
    unfold disciplined. cbn [pc env].
    rewrite environment_port1, environment_ts. auto.
  - (* line 127 *)
    destruct Hd as (Hp & Ht & _). rewrite (step_motion args w o Hr).
    destruct (motion_detected (output (environment o w))) eqn:Hm.
    + rewrite (after_waits_on args _ Hm). unfold disciplined, opened. cbn.
      split; [reflexivity|]. split; [eexists; reflexivity|exact Hrec].
    + rewrite (after_waits_off args _ Hm).
      destruct (truthy _ && Qgtb _ _).
      * rewrite environment_ts.
        destruct (ts w) as [t|] eqn:Hts.
        -- unfold disciplined. cbn [settle pc env].
           rewrite environment_port1, environment_ts.
           destruct Ht as [Ht|Ht]; [discriminate|]. auto.
        -- cbn [settle]. apply disciplined_leave, Hrec.
      * unfold disciplined. cbn [settle pc env].
        rewrite environment_port1, environment_ts. auto.
  - (* capture *)
    destruct Hd as (Hp & Ht & _). rewrite (step_capture args w o name Hr).
    unfold disciplined. cbn. rewrite environment_port1, environment_ts. auto.
  - (* line 136 *)
    destruct Hd as (Hp & Ht & _). rewrite (step_still args w o Hr).
    apply disciplined_still;
      rewrite ?environment_port1, ?environment_ts; assumption.
  - (* the transcoder is done *)
    destruct Hd as (Hp & Hts & Ht & _).
    destruct (step_convert args w o t Hr) as (w' & Hw' & [Hs|[e Hs]]); rewrite Hs.
    + unfold disciplined. cbn [pc env]. rewrite Hw'. cbn.
      rewrite environment_port1, environment_ts, Hts. auto.
    + apply disciplined_leave. rewrite Hw'. cbn. exact Hrec.
Qed.

Lemma run_disciplined (args : main_args) (s : state) (script : list outcome) :
  disciplined s -> disciplined (run args s script).
Proof.
  revert s. induction script as [|o script IH]; intros s Hd; simpl; [exact Hd|].
  apply IH, disciplined_step, Hd.
Qed.

Lemma start_disciplined (dir : gmap string (list byte)) (now : Q) (d : datetime) :
  disciplined (start dir now d).
Proof. unfold disciplined. cbn. auto. Qed.

(** X15. The discipline of the loop holds at every point of every run of
    [main] (see [disciplined]). So, while [main] runs: both splitter
    ports are recorded; port 1 records to [after.h264] exactly while a
    capture or the wait of line 136 is pending; and [ts], when bound, is
    a timestamp, so that [<ts>.h264] is never the scratch file
    [after.h264]. Once [main] is over, no port is recorded. *)
Theorem loop_discipline (args : main_args)
    (dir : gmap string (list byte)) (now : Q) (d : datetime)
    (script : list outcome) :
  let s := run args (start dir now d) script in
  disciplined s /\
  (monitoring s = false -> recording (env s) = []) /\
  (monitoring s = true ->
   recording (env s) = [1%nat; 2%nat] /\
   (port1 (env s) = ToFile "after.h264" <->
    (pc s = StillWait \/ exists name, pc s = Capturing name)) /\
   (port1 (env s) = ToStream \/ port1 (env s) = ToFile "after.h264") /\
   (forall t, ts (env s) = Some t -> h264 t <> "after.h264"%string)).
Proof.
  intros s.
  assert (Hd : disciplined s) by (apply run_disciplined, start_disciplined).
  split; [exact Hd|]. unfold disciplined, monitoring in *.
  assert (Hts : ts (env s) = None \/ timestamp (ts (env s)) ->
                forall t, ts (env s) = Some t -> h264 t <> "after.h264"%string).
  { intros [Hn|[d' Hd']] t Ht; [congruence|].
    rewrite Ht in Hd'. injection Hd' as ->. apply format_ts_not_after. }
  destruct (pc s) eqn:Hpc.
  - destruct Hd as (Hp & Ht & Hrec). split; [discriminate|]. intros _.
    split; [exact Hrec|]. split; [|split; [auto|apply Hts; exact Ht]].
    rewrite Hp. split; [discriminate|]. intros [H|[name H]]; discriminate.
  - destruct Hd as (Hp & Ht & Hrec). split; [discriminate|]. intros _.
    split; [exact Hrec|]. split; [|split; [auto|apply Hts; exact Ht]].
    rewrite Hp. split; [discriminate|]. intros [H|[name H]]; discriminate.
  - destruct Hd as (Hp & Ht & Hrec). split; [discriminate|]. intros _.
    split; [exact Hrec|]. split; [|split; [auto|apply Hts; exact Ht]].
    rewrite Hp. split; [discriminate|]. intros [H|[name H]]; discriminate.
  - destruct Hd as (Hp & Ht & Hrec). split; [discriminate|]. intros _.
    split; [exact Hrec|]. split; [|split; [auto|apply Hts; right; exact Ht]].
    split; [eauto|intros _; exact Hp].
  - destruct Hd as (Hp & Ht & Hrec). split; [discriminate|]. intros _.
    split; [exact Hrec|]. split; [|split; [auto|apply Hts; right; exact Ht]].
    split; [auto|intros _; exact Hp].
  - destruct Hd as (Hp & Ht & Hst & Hrec). split; [discriminate|]. intros _.
    split; [exact Hrec|].
    split; [|split; [auto|apply Hts; right; rewrite Ht; exact Hst]].
    rewrite Hp. split; [discriminate|]. intros [H|[name H]]; discriminate.
  - split; [intros _; exact Hd|discriminate].
Qed.

(** *** With conversion switched off *)

Definition never_converted (s : state) : Prop :=
  procs (env s) = [] /\ forall t, pc s <> Converting t.

Lemma never_converted_leave (e : exn) (w : world) :
  procs w = [] -> never_converted (leave e w).
Proof.
  intros Hp. unfold never_converted, leave. cbn [pc env].
  destruct (stop_all_same w) as (_ & _ & _ & _ & _ & -> & _).
  split; [exact Hp|discriminate].
Qed.

Lemma never_converted_still (w : world) :
  procs w = [] -> never_converted (settle (while_motion w)).
Proof.
  intros Hp. destruct (motion_detected (output w)) eqn:Hm.
  - rewrite (while_motion_on w Hm). split; [exact Hp|discriminate].
  - rewrite (while_motion_off w Hm).
    pose proof (end_episode_world w) as He.
    destruct (end_episode w) as [c w'|e w'].
    + destruct He as [-> Hw']. split; [|discriminate].
      cbn [settle env]. rewrite Hw'. exact Hp.
    + cbn [settle]. apply never_converted_leave. rewrite He. exact Hp.
Qed.

Lemma never_converted_step (args : main_args) (s : state) (o : outcome) :
  truthy (convert_vids args) = false ->
  never_converted s -> never_converted (step args s o).
Proof.
  intros Hcv Hn. destruct (monitoring s) eqn:Hmon;
    [|rewrite (step_exited args s o Hmon); exact Hn].
  destruct Hn as [Hp Hpc].
  assert (Hp1 : procs (environment o (env s)) = [])
    by (rewrite environment_procs; exact Hp).
  destruct (o_raise o) as [e|] eqn:Hr.
  { rewrite (step_raise args s o e Hmon Hr). apply never_converted_leave, Hp1. }
  destruct s as [c w]. cbn [pc env] in *. unfold monitoring in Hmon. cbn [pc] in Hmon.
  destruct c; try discriminate.
  - rewrite (step_warmup args w o Hr). split; [exact Hp1|discriminate].
  - rewrite (step_tick args w o Hr). split; [exact Hp1|discriminate].
  - rewrite (step_motion args w o Hr).
    destruct (motion_detected (output (environment o w))) eqn:Hm.
    + rewrite (after_waits_on args _ Hm). split; [exact Hp1|discriminate].
    + rewrite (after_waits_off args _ Hm), Hcv.
      split; [exact Hp1|discriminate].
  - rewrite (step_capture args w o name Hr). split; [exact Hp1|discriminate].
  - rewrite (step_still args w o Hr). apply never_converted_still, Hp1.
  - exfalso. apply (Hpc t). reflexivity.
Qed.

(** X16. With [convert_vids] false (the default of [main]) the transcoder
    is never run: in every run no command is started and the loop is
    never inside [convert_video]. *)
Theorem no_conversion_when_disabled (args : main_args)
    (dir : gmap string (list byte)) (now : Q) (d : datetime)
    (script : list outcome) :
  truthy (convert_vids args) = false ->
  let s := run args (start dir now d) script in
  procs (env s) = [] /\ (forall t, pc s <> Converting t) /\
  convert_vids default_args = 0%Q.
Proof.
  intros Hcv s.
  assert (Hn : never_converted s).
  { unfold s.
    assert (H0 : never_converted (start dir now d))
      by (split; [reflexivity|discriminate]).
    revert H0. generalize (start dir now d).
    induction script as [|o script IH]; intros s0 H0; simpl; [exact H0|].
    apply IH. apply never_converted_step; assumption. }
  destruct Hn as [Hp Hpc]. split; [exact Hp|]. split; [exact Hpc|reflexivity].
Qed.

Lemma no_conversion_when_disabled_witness :
  procs (env (run default_args (start ∅ 0 noon) (one_episode ++ transient_only))) = [].
Proof.
  destruct (no_conversion_when_disabled default_args ∅ 0 noon
              (one_episode ++ transient_only)) as (Hp & _).
  - reflexivity.
  - exact Hp.
Defined.

(** *** When no other process removes a file *)

(** No outcome removes a file. *)
Definition no_unlink (script : list outcome) : bool :=
  forallb (fun o => match o_unlinked o with [] => true | _ => false end) script.

Definition episode_is_open (s : state) : Prop :=
  pc s = StillWait \/ exists name, pc s = Capturing name.

Definition after_kept (s : state) : Prop :=
  disciplined s /\
  (episode_is_open s -> is_Some (files (env s) !! "after.h264"%string)).

Lemma after_kept_closed (s : state) :
  disciplined s -> ~ episode_is_open s -> after_kept s.
Proof. intros Hd Hno. split; [exact Hd|]. intros Ho. contradiction. Qed.

Lemma leave_not_open (e : exn) (w : world) : ~ episode_is_open (leave e w).
Proof. unfold episode_is_open, leave. cbn [pc]. intros [H|[n H]]; discriminate. Qed.

Lemma after_kept_step (args : main_args) (s : state) (o : outcome) :
  o_unlinked o = [] -> after_kept s -> after_kept (step args s o).
Proof.
  intros Hun [Hd Hfile].
  pose proof (disciplined_step args s o Hd) as Hd1.
  destruct (monitoring s) eqn:Hmon;
    [|rewrite (step_exited args s o Hmon); split; assumption].
  destruct (o_raise o) as [e|] eqn:Hr.
  { rewrite (step_raise args s o e Hmon Hr) in Hd1 |- *.
    apply after_kept_closed; [exact Hd1|apply leave_not_open]. }
  destruct s as [c w]. unfold episode_is_open in Hfile. cbn [pc env] in *.
  unfold monitoring in Hmon. cbn [pc] in Hmon.
  destruct c; try discriminate.
  - rewrite (step_warmup args w o Hr) in Hd1 |- *.
    apply after_kept_closed; [exact Hd1|]. intros [H|[n H]]; discriminate.
  - rewrite (step_tick args w o Hr) in Hd1 |- *.
    apply after_kept_closed; [exact Hd1|]. intros [H|[n H]]; discriminate.
  - rewrite (step_motion args w o Hr) in Hd1 |- *.
    destruct (motion_detected (output (environment o w))) eqn:Hm.
    + rewrite (after_waits_on args _ Hm) in Hd1 |- *. cbn [settle] in *.
      split; [exact Hd1|]. intros _.
      unfold opened. cbn [env files set_img_counter set_stream set_files].
      rewrite lookup_insert_ne by apply format_ts_not_after.
      rewrite lookup_insert_eq. eauto.
    + rewrite (after_waits_off args _ Hm) in Hd1 |- *.
      apply after_kept_closed; [exact Hd1|].
      destruct (truthy _ && Qgtb _ _); [destruct (ts (environment o w))|];
        cbn [settle]; try apply leave_not_open;
        intros [H|[n H]]; discriminate.
  - rewrite (step_capture args w o name Hr) in Hd1 |- *.
    split; [exact Hd1|]. intros _. cbn [env files set_stills set_files].
    assert (Hkeep : is_Some (files (environment o w) !! "after.h264"%string))
      by (apply environment_keeps_files; [exact Hun|apply Hfile; eauto]).
    destruct (decide (name = "after.h264"%string)) as [->|Hne].
    + rewrite lookup_insert_eq. eauto.
    + rewrite lookup_insert_ne by exact Hne. exact Hkeep.
  - assert (Hkeep : is_Some (files (environment o w) !! "after.h264"%string))
      by (apply environment_keeps_files; [exact Hun|apply Hfile; auto]).
    rewrite (step_still args w o Hr) in Hd1 |- *.
    destruct (motion_detected (output (environment o w))) eqn:Hm.
    + rewrite (while_motion_on _ Hm) in Hd1 |- *. cbn [settle] in *.
      split; [exact Hd1|]. intros _. exact Hkeep.
    + rewrite (while_motion_off _ Hm) in Hd1 |- *.
      apply after_kept_closed; [exact Hd1|].
      pose proof (end_episode_world (environment o w)) as He.
      destruct (end_episode (environment o w)) as [c' w'|e w']; cbn [settle].
      * destruct He as [-> _]. intros [H|[n H]]; discriminate.
      * apply leave_not_open.
  - destruct (step_convert args w o t Hr) as (w' & _ & [Hs|[e Hs]]);
      rewrite Hs in Hd1 |- *; apply after_kept_closed; try exact Hd1.
    + intros [H|[n H]]; discriminate.
    + apply leave_not_open.
Qed.

(** X17. While an episode is open [after.h264] exists, unless another
    process removes it: in every run of [main] in which no other process
    removes a file, whenever a capture or the wait of line 136 is
    pending, [after.h264] is there, port 1 records to it and [ts] is a
    timestamp; and it is still there when the wait of line 136 returns,
    so that at the end of an episode the open for reading of line 88 and
    the [os.remove] of line 90 find their file. (Whether the opens and
    writes themselves succeed, an [OSError], is not part of this model.) *)
Theorem after_file_kept_while_open (args : main_args)
    (dir : gmap string (list byte)) (now : Q) (d : datetime)
    (script : list outcome) :
  no_unlink script = true ->
  let s := run args (start dir now d) script in
  (episode_is_open s ->
   is_Some (files (env s) !! "after.h264"%string) /\
   port1 (env s) = ToFile "after.h264" /\
   (exists d', ts (env s) = Some (format_ts d'))) /\
  (forall o, pc s = StillWait -> o_unlinked o = [] ->
             is_Some (files (environment o (env s)) !! "after.h264"%string) /\
             exists d', ts (environment o (env s)) = Some (format_ts d')).
Proof.
  intros Hun s.
  assert (Hk : after_kept s).
  { unfold s.
    assert (H0 : after_kept (start dir now d)).
    { apply after_kept_closed; [apply start_disciplined|].
      intros [H|[n H]]; discriminate. }
    revert H0 Hun. generalize (start dir now d).
    induction script as [|o script IH]; intros s0 H0 Hun; simpl; [exact H0|].
    unfold no_unlink in Hun. simpl in Hun.
    apply andb_true_iff in Hun as [Hu Hun].
    apply IH; [|exact Hun].
    apply after_kept_step; [|exact H0].
    destruct (o_unlinked o); [reflexivity|discriminate]. }
  destruct Hk as [Hd Hfile].
  assert (Hopen : episode_is_open s ->
            port1 (env s) = ToFile "after.h264" /\
            exists d', ts (env s) = Some (format_ts d')).
  { unfold disciplined in Hd. intros [H|[n H]]; rewrite H in Hd; tauto. }
  split.
  - intros Ho. split; [apply Hfile; exact Ho|apply Hopen; exact Ho].
  - intros o Hpc Huo.
    assert (Ho : episode_is_open s) by (left; exact Hpc).
    split; [apply environment_keeps_files; [exact Huo|apply Hfile; exact Ho]|].
    rewrite environment_ts. apply Hopen. exact Ho.
Qed.

Lemma after_file_kept_while_open_witness :
  is_Some (files (env (run default_args (start ∅ 0 noon) second_episode))
             !! "after.h264"%string).
Proof.
  destruct (after_file_kept_while_open default_args ∅ 0 noon second_episode)
    as [Hopen _].
  - vm_compute. reflexivity.
  - destruct Hopen as (Hfile & _); [|exact Hfile].
    right. eexists. vm_compute. reflexivity.
Defined.

End LoopExtra.
